(** * Quest Family compositor v1: a shallow embedding of [compositor.py]

    The pixel pipeline of [src/compositor_v1/compositor.py] is embedded as
    Rocq functions: sprite-sheet cropping, white-background keying, feet-row
    detection, placement arithmetic, config validation and the [composite]
    driver.  Python [int] is [Z]; Python [float] is IEEE 754 binary64,
    computed with the Standard Library's [SpecFloat]; exceptions are an
    error monad; image files and the output file are an explicit event log. *)

From Stdlib Require Import ZArith Lia Bool.
From Stdlib Require Import Floats.SpecFloat.
From stdpp Require Import base option list strings gmap sorting.

#[local] Open Scope Z_scope.

(** ** Exceptions *)

(** The [ValueError]s of the module, one constructor per message; [nat] is the
    index of the offending character entry. *)
Inductive value_error :=
  | SheetTooSmall (w h : Z)
  | MustIncludeBackground
  | MustIncludeCharacters
  | MissingSpriteSheet (i : nat)
  | PoseIndexRange (i : nat)
  | MissingXY (i : nat)
  | XYRange (i : nat)
  | ScaleOverrideRange (i : nat)
  | ScaleRange (i : nat)
  | BaseScaleRange
  | SizeMismatch
  | CannotConvert.

Inductive exn :=
  | ValueError (e : value_error)
  | FileNotFoundError (path : string)
  | TypeError
  | KeyError (key : string)
  | IndexError
  | ZeroDivisionError
  | OverflowError
  | OSError (path : string).

Inductive result (A : Type) :=
  | Ok (a : A)
  | Raise (e : exn).
Arguments Ok {A} a.
Arguments Raise {A} e.

#[global] Instance result_ret : MRet result := fun A a => Ok a.
#[global] Instance result_fmap : FMap result := fun A B f m =>
  match m with
  | Ok a => Ok (f a)
  | Raise e => Raise e
  end.
#[global] Instance result_bind : MBind result := fun A B k m =>
  match m with
  | Ok a => k a
  | Raise e => Raise e
  end.

(** ** Python floats: IEEE 754 binary64 *)

Module Float64.

Definition prec : Z := 53.
Definition emax : Z := 1024.

Definition float := spec_float.

Definition is_finite (x : float) : bool :=
  match x with
  | S754_zero _ | S754_finite _ _ _ => true
  | _ => false
  end.

(** An integer as an unrounded binary number. *)
Definition exact (n : Z) : float :=
  match n with
  | Z0 => S754_zero false
  | Zpos p => S754_finite false p 0
  | Zneg p => S754_finite true p 0
  end.

(** [float(n)]: round to nearest, ties to even; too large an [int] raises. *)
Definition of_int (n : Z) : result float :=
  let x := binary_normalize prec emax n 0 false in
  if is_finite x then Ok x else Raise OverflowError.

Definition mul : float -> float -> float := SFmul prec emax.

(** [int(x)]: truncation toward zero; raises on infinities and NaN. *)
Definition to_int (x : float) : result Z :=
  match x with
  | S754_zero _ => Ok 0
  | S754_finite s m e =>
      let mag := match e with
                 | Zneg p => Z.shiftr (Zpos m) (Zpos p)
                 | _ => Z.shiftl (Zpos m) e
                 end in
      Ok (if s then - mag else mag)
  | S754_infinity _ => Raise OverflowError
  | S754_nan => Raise (ValueError CannotConvert)
  end.

(** [a / b] on two [int]s: the correctly rounded quotient. *)
Definition truediv (a b : Z) : result float :=
  if b =? 0 then Raise ZeroDivisionError
  else
    let q := SFdiv prec emax (exact a) (exact b) in
    if is_finite q then Ok q else Raise OverflowError.

(** [n * x] with [n] an [int] and [x] a [float]. *)
Definition int_mul (n : Z) (x : float) : result float :=
  fn ← of_int n; Ok (mul fn x).

(** [x * n] with [x] a [float] and [n] an [int]. *)
Definition mul_int (x : float) (n : Z) : result float :=
  fn ← of_int n; Ok (mul x fn).

Definition leb : float -> float -> bool := SFleb.

(** A decimal literal [num / den]: the binary64 number nearest to it. *)
Definition literal (num den : Z) : float := SFdiv prec emax (exact num) (exact den).

Definition lit_0_1 : float := Eval vm_compute in literal 1 10.
Definition lit_0_25 : float := Eval vm_compute in literal 25 100.
Definition lit_1_0 : float := Eval vm_compute in literal 1 1.

(** The order between a [float] and an [int], computed exactly. *)
Definition compare_int (x : float) (n : Z) : option comparison :=
  match x with
  | S754_nan => None
  | S754_infinity s => Some (if s then Lt else Gt)
  | S754_zero _ => Some (0 ?= n)
  | S754_finite s m e =>
      let sm := if s then Zneg m else Zpos m in
      Some (match e with
            | Zneg p => sm ?= n * Z.pow_pos 2 p
            | _ => sm * 2 ^ e ?= n
            end)
  end.

End Float64.

(** ** Module constants *)

Definition NUM_POSES : Z := 5.
Definition WHITE_LOW : Z := 220.
Definition WHITE_HIGH : Z := 245.
Definition ALPHA_BLUR_RADIUS : Z := 1.
Definition SHADOW_OFFSET : Z * Z := (4, 6).
Definition SHADOW_BLUR_RADIUS : Z := 8.
Definition FEET_ALPHA_THRESHOLD : Z := 10.
Definition SHADOW_OPACITY : Float64.float := Eval vm_compute in Float64.literal 35 100.

(** ** Pixels *)

Abbreviation pixel_rgb := (Z * Z * Z)%type.
Abbreviation pixel_rgba := (Z * Z * Z * Z)%type.

(** The body of the loop of [_remove_white_background]: one output pixel from
    an RGB pixel and the alpha of the RGBA pixel at the same place. *)
Definition key_pixel (p : pixel_rgb) (orig_a : Z) : result pixel_rgba :=
  let '(r, g, b) := p in
  let L := Z.max (Z.max r g) b in
  if WHITE_HIGH <=? L then Ok (r, g, b, 0)
  else if L <=? WHITE_LOW then Ok (r, g, b, orig_a)
  else
    falloff ← Float64.truediv (WHITE_HIGH - L) (WHITE_HIGH - WHITE_LOW);
    scaled ← Float64.int_mul orig_a falloff;
    new_alpha ← Float64.to_int scaled;
    Ok (r, g, b, new_alpha).

(** ** Images

    A PIL image of one mode: its size and its pixel access.  Only the
    coordinates [0 <= x < width], [0 <= y < height] are ever read. *)

Record Image (P : Type) := mkImage {
  width : Z;
  height : Z;
  px : Z -> Z -> P
}.
Arguments mkImage {P} _ _ _.
Arguments width {P} _.
Arguments height {P} _.
Arguments px {P} _ _ _.

(** [range(n)] *)
Definition py_range (n : Z) : list Z := seqZ 0 n.

Definition getpixel {P} (img : Image P) (xy : Z * Z) : P := px img xy.1 xy.2.

(** [list(img.getdata())]: the pixels row by row. *)
Definition getdata {P} (img : Image P) : list P :=
  y ← py_range (height img); x ← py_range (width img); [px img x y].

(** [img.putdata(data)]: pixel [(x, y)] is taken from [data[y * width + x]];
    pixels past the end of [data] keep their value. *)
Definition putdata {P} (img : Image P) (data : list P) : Image P :=
  mkImage (width img) (height img)
    (fun x y => default (px img x y) (data !! Z.to_nat (y * width img + x))).

(** [img.crop((left, upper, right, lower)).copy()] *)
Definition crop {P} (img : Image P) (box : Z * Z * Z * Z) : Image P :=
  let '(left_, upper, right_, lower) := box in
  mkImage (right_ - left_) (lower - upper) (fun x y => px img (x + left_) (y + upper)).

Definition image_new {P} (size : Z * Z) (color : P) : Image P :=
  mkImage size.1 size.2 (fun _ _ => color).

Definition image_map {P Q} (f : P -> Q) (img : Image P) : Image Q :=
  mkImage (width img) (height img) (fun x y => f (px img x y)).

(** [img.split()] on an RGBA image, band by band, and [Image.merge]. *)
Definition band_R (img : Image pixel_rgba) : Image Z := image_map (fun p => p.1.1.1) img.
Definition band_G (img : Image pixel_rgba) : Image Z := image_map (fun p => p.1.1.2) img.
Definition band_B (img : Image pixel_rgba) : Image Z := image_map (fun p => p.1.2) img.
Definition band_A (img : Image pixel_rgba) : Image Z := image_map (fun p => p.2) img.

Definition same_size {P Q} (i : Image P) (j : Image Q) : bool :=
  (width i =? width j) && (height i =? height j).

Definition merge_bands (r g b a : Image Z) : Image pixel_rgba :=
  mkImage (width r) (height r) (fun x y => (px r x y, px g x y, px b x y, px a x y)).

(** [Image.merge("RGBA", (r, g, b, a))]: the bands must have one size. *)
Definition merge_RGBA (r g b a : Image Z) : result (Image pixel_rgba) :=
  if same_size r g && same_size r b && same_size r a
  then Ok (merge_bands r g b a)
  else Raise (ValueError SizeMismatch).

(** An image as the compositor receives it: RGB, or RGB with an alpha band. *)
Inductive AnyImage :=
  | ImRGB (img : Image pixel_rgb)
  | ImRGBA (img : Image pixel_rgba).

Definition convert_RGB (img : AnyImage) : Image pixel_rgb :=
  match img with
  | ImRGB i => i
  | ImRGBA i => image_map (fun p => p.1) i
  end.

Definition convert_RGBA (img : AnyImage) : Image pixel_rgba :=
  match img with
  | ImRGB i => image_map (fun p => (p, 255)) i
  | ImRGBA i => i
  end.

Definition any_width (img : AnyImage) : Z := width (convert_RGBA img).
Definition any_height (img : AnyImage) : Z := height (convert_RGBA img).

(** The operations of the imaging library that the module calls and whose
    code is not part of it.  The library takes sizes and positions as
    machine integers: [resize] raises for a size it does not accept, and so
    does [paste] onto the canvas for a position it does not accept; a resize
    that returns has the size asked for.  [paste_L] is the paste of the
    silhouette into its own padded layer, which stays inside that layer. *)
Class Pil := {
  gaussian_blur_L : Z -> Image Z -> Image Z;
  gaussian_blur_RGBA : Z -> Image pixel_rgba -> Image pixel_rgba;
  resize_lanczos : Image pixel_rgba -> Z * Z -> result (Image pixel_rgba);
  paste_L : Image pixel_rgba -> Image Z -> Z * Z -> Image Z -> Image pixel_rgba;
  paste_RGBA : Image pixel_rgba -> Image pixel_rgba -> Z * Z -> Image pixel_rgba
               -> result (Image pixel_rgba);
  gaussian_blur_L_size : forall r img,
    width (gaussian_blur_L r img) = width img /\
    height (gaussian_blur_L r img) = height img;
  resize_lanczos_size : forall img size out,
    resize_lanczos img size = Ok out ->
    width out = size.1 /\ height out = size.2
}.

(** ** Sprite extractor *)

Definition _crop_poses {P} (sheet : Image P) : result (list (Image P)) :=
  let w := width sheet in
  let h := height sheet in
  if (w <? NUM_POSES) || (h <? 1) then Raise (ValueError (SheetTooSmall w h))
  else
    let col_width := w / NUM_POSES in
    Ok ((fun i =>
           let left_ := i * col_width in
           let right_ := if i <? NUM_POSES - 1 then (i + 1) * col_width else w in
           crop sheet (left_, 0, right_, h)) <$> py_range NUM_POSES).

(** ** Background keyer *)

(** The loop of [_remove_white_background] up to [rgba.putdata(out)]. *)
Definition key_data (img : AnyImage) : result (Image pixel_rgba) :=
  let rgb := convert_RGB img in
  let rgba := convert_RGBA img in
  let data := getdata rgba in
  out ← mapM (fun pq : pixel_rgb * pixel_rgba => key_pixel pq.1 pq.2.2) (zip (getdata rgb) data);
  Ok (putdata rgba out).

Definition _remove_white_background `{Pil} (img : AnyImage) : result (Image pixel_rgba) :=
  rgba ← key_data img;
  if 0 <? ALPHA_BLUR_RADIUS then
    let alpha_channel := band_A rgba in
    let alpha_blurred := gaussian_blur_L ALPHA_BLUR_RADIUS alpha_channel in
    merge_RGBA (band_R rgba) (band_G rgba) (band_B rgba) alpha_blurred
  else Ok rgba.

(** ** Ground anchor locator *)

Definition _lowest_opaque_row (pose_rgba : Image pixel_rgba) : Z :=
  let w := width pose_rgba in
  let h := height pose_rgba in
  let alpha_channel := band_A pose_rgba in
  let opaque_in_row y :=
    existsb (fun x => FEET_ALPHA_THRESHOLD <=? getpixel alpha_channel (x, y)) (py_range w) in
  default h (find opaque_in_row (reverse (py_range h))).

(** ** Numbers of either kind

    A config value that passed validation, and the product of two of them,
    is an [int] or a [float]. *)

Inductive number :=
  | NInt (n : Z)
  | NFloat (x : Float64.float).

Definition num_float (a : number) : result Float64.float :=
  match a with
  | NInt n => Float64.of_int n
  | NFloat x => Ok x
  end.

(** [a * b] *)
Definition num_mul (a b : number) : result number :=
  match a, b with
  | NInt m, NInt n => Ok (NInt (m * n))
  | _, _ => x ← num_float a; y ← num_float b; Ok (NFloat (Float64.mul x y))
  end.

(** [int(a)] *)
Definition num_int (a : number) : result Z :=
  match a with
  | NInt n => Ok n
  | NFloat x => Float64.to_int x
  end.

(** ** Scaling *)

Definition _resize_pose `{Pil} (pose : Image pixel_rgba) (bg_width bg_height : Z)
    (scale : number) : result (Image pixel_rgba) :=
  scaled ← num_mul scale (NInt bg_height);
  h_scaled ← num_int scaled;
  let h_new := Z.max 1 h_scaled in
  let w := width pose in
  let h := height pose in
  ratio ← Float64.truediv h_new h;
  w_scaled ← (p ← Float64.int_mul w ratio; Float64.to_int p);
  let w_new := Z.max 1 w_scaled in
  resize_lanczos pose (w_new, h_new).

(** The feet row of the scaled pose, as [composite] recomputes it. *)
Definition feet_row_scaled (feet_row_orig orig_h scaled_h : Z) : result Z :=
  if 0 <? orig_h then
    ratio ← Float64.truediv scaled_h orig_h;
    p ← Float64.int_mul feet_row_orig ratio;
    Float64.to_int p
  else Ok scaled_h.

(** ** Shadow *)

Definition dark_gray : pixel_rgb := (50, 50, 50).

Definition sum_list_Z (l : list Z) : Z := foldr Z.add 0 l.

#[local] Instance float_le_dec (x y : Float64.float) :
  Decision (Is_true (Float64.leb x y)) := _.

Definition sorted_floats (l : list Float64.float) : list Float64.float :=
  merge_sort (fun x y => Is_true (Float64.leb x y)) l.

Definition list_get {A} (l : list A) (i : Z) : result A :=
  if i <? 0 then Raise IndexError
  else match l !! Z.to_nat i with
       | Some a => Ok a
       | None => Raise IndexError
       end.

Definition _sample_shadow_color (background : Image pixel_rgb)
    (region : Z * Z * Z * Z) : result pixel_rgb :=
  let '(x0, y0, x1, y1) := region in
  let x0 := Z.max 0 x0 in
  let y0 := Z.max 0 y0 in
  let x1 := Z.min (width background) x1 in
  let y1 := Z.min (height background) y1 in
  if (x1 <=? x0) || (y1 <=? y0) then Ok dark_gray
  else
    let cropped := crop background (x0, y0, x1, y1) in
    let pixels := getdata cropped in
    match pixels with
    | [] => Ok dark_gray
    | _ =>
      luminances ← mapM (fun p : pixel_rgb => Float64.truediv (p.1.1 + p.1.2 + p.2) 3) pixels;
      let sorted_lums := sorted_floats luminances in
      let n := Z.of_nat (length sorted_lums) in
      if n =? 0 then Ok dark_gray
      else
        i10 ← (p ← Float64.int_mul n Float64.lit_0_1; Float64.to_int p);
        i25 ← (p ← Float64.int_mul n Float64.lit_0_25; Float64.to_int p);
        let p10_idx := Z.max 0 i10 in
        let p25_idx := Z.min (n - 1) i25 in
        lo ← list_get sorted_lums p10_idx;
        hi ← list_get sorted_lums p25_idx;
        let dark_pixels :=
          (filter (fun pl : pixel_rgb * Float64.float =>
                     Is_true (Float64.leb lo pl.2 && Float64.leb pl.2 hi))
                  (zip pixels luminances)).*1 in
        let dark_pixels := match dark_pixels with [] => pixels | _ => dark_pixels end in
        let count := Z.of_nat (length dark_pixels) in
        let avg_r := sum_list_Z ((fun p : pixel_rgb => p.1.1) <$> dark_pixels) / count in
        let avg_g := sum_list_Z ((fun p : pixel_rgb => p.1.2) <$> dark_pixels) / count in
        let avg_b := sum_list_Z ((fun p : pixel_rgb => p.2) <$> dark_pixels) / count in
        Ok (avg_r, avg_g, avg_b)
    end.

(** The pixel loop is the map over [getdata], row by row; the unused local
    [opacity] of the source is left out. *)
Definition _shadow_from_alpha `{Pil} (alpha : Image Z) (offset : Z * Z) (blur : Z)
    (shadow_color : option pixel_rgb) : result (Image pixel_rgba * Z) :=
  let w := width alpha in
  let h := height alpha in
  let '(ox, oy) := offset in
  let pad := blur * 2 + Z.max (Z.abs ox) (Z.abs oy) in
  let tw := w + 2 * pad in
  let th := h + 2 * pad in
  let layer := image_new (tw, th) (0, 0, 0, 0) in
  let layer := paste_L layer alpha (pad + ox, pad + oy) alpha in
  let blurred := gaussian_blur_RGBA blur layer in
  let shadow := image_new (tw, th) (0, 0, 0, 0) in
  let shadow_color := default dark_gray shadow_color in
  let '(r, g, b) := shadow_color in
  out ← mapM (fun p : pixel_rgba =>
                let a := p.2 in
                if 0 <? a then
                  final_alpha ← (q ← Float64.int_mul a SHADOW_OPACITY;
                                 Float64.to_int q);
                  Ok (r, g, b, final_alpha)
                else Ok (0, 0, 0, 0))
             (getdata blurred);
  Ok (putdata shadow out, pad).

(** ** Placement *)

(** [int(frac * size)] *)
Definition scale_to_pixels (frac : Float64.float) (size : Z) : result Z :=
  p ← Float64.mul_int frac size; Float64.to_int p.

(** The point of the canvas the feet go to: [(cx, cy)] of [_composite_one]. *)
Definition canvas_target (x_frac y_frac : Float64.float) (bg_width bg_height : Z)
    : result (Z * Z) :=
  cx ← scale_to_pixels x_frac bg_width;
  cy ← scale_to_pixels y_frac bg_height;
  Ok (cx, cy).

(** [(paste_x, paste_y)] of [_composite_one]. *)
Definition paste_origin (pose_size : Z * Z) (x_frac y_frac : Float64.float)
    (bg_width bg_height feet_row : Z) : result (Z * Z) :=
  let '(bw, bh) := (bg_width, bg_height) in
  let '(pw, ph) := pose_size in
  let anchor_x := pw / 2 in
  let anchor_y := feet_row in
  '(cx, cy) ← canvas_target x_frac y_frac bw bh;
  let paste_x := cx - anchor_x in
  let paste_y := cy - anchor_y in
  Ok (paste_x, paste_y).

Definition _composite_one `{Pil} (canvas : Image pixel_rgba) (background : Image pixel_rgb)
    (pose_rgba : Image pixel_rgba) (x_frac y_frac : Float64.float)
    (bg_width bg_height feet_row : Z) : result (Image pixel_rgba) :=
  let '(bw, bh) := (bg_width, bg_height) in
  let '(pw, ph) := (width pose_rgba, height pose_rgba) in
  '(paste_x, paste_y) ← paste_origin (pw, ph) x_frac y_frac bw bh feet_row;
  let '(ox, oy) := SHADOW_OFFSET in
  let shadow_x0 := Z.max 0 (paste_x - pw / 4) in
  let shadow_y0 := Z.max 0 (paste_y + ph / 2) in
  let shadow_x1 := Z.min bw (paste_x + pw + pw / 4) in
  let shadow_y1 := Z.min bh (paste_y + ph + ph / 2 + oy * 2) in
  let shadow_region := (shadow_x0, shadow_y0, shadow_x1, shadow_y1) in
  shadow_color ← _sample_shadow_color background shadow_region;
  let alpha := band_A pose_rgba in
  '(shadow_img, pad) ← _shadow_from_alpha alpha SHADOW_OFFSET SHADOW_BLUR_RADIUS
                          (Some shadow_color);
  let sx := paste_x + ox - (pad + ox) in
  let sy := paste_y + oy - (pad + oy) in
  canvas ← paste_RGBA canvas shadow_img (sx, sy) shadow_img;
  paste_RGBA canvas pose_rgba (paste_x, paste_y) pose_rgba.

(** ** Config values

    A config is what [json.load] returns: the value under ["characters"],
    when present, is a list of objects; every other value is a scalar. *)

Inductive value :=
  | VNone
  | VBool (b : bool)
  | VInt (n : Z)
  | VFloat (x : Float64.float)
  | VStr (s : string).

Record Config := mkConfig {
  cfg_fields : gmap string value;
  cfg_characters : option (list (gmap string value))
}.

(** [d.get(key)] *)
Definition dict_get (d : gmap string value) (key : string) : value :=
  default VNone (d !! key).

(** [d[key]] *)
Definition dict_item (d : gmap string value) (key : string) : result value :=
  match d !! key with
  | Some v => Ok v
  | None => Raise (KeyError key)
  end.

(** [key in d] *)
Definition dict_has (d : gmap string value) (key : string) : bool :=
  bool_decide (is_Some (d !! key)).

Definition is_None (v : value) : bool :=
  match v with
  | VNone => true
  | _ => false
  end.

(** A value as an operand of arithmetic or of a comparison with a number;
    [bool] is a subtype of [int].  A string only ever meets an [int] in a
    comparison, which raises. *)
Definition value_number (v : value) : result number :=
  match v with
  | VBool b => Ok (NInt (if b then 1 else 0))
  | VInt n => Ok (NInt n)
  | VFloat x => Ok (NFloat x)
  | VNone | VStr _ => Raise TypeError
  end.

Definition num_compare (a b : number) : option comparison :=
  match a, b with
  | NInt m, NInt n => Some (m ?= n)
  | NFloat x, NInt n => Float64.compare_int x n
  | NInt m, NFloat y => CompOpp <$> Float64.compare_int y m
  | NFloat x, NFloat y => SFcompare x y
  end.

Definition num_lt (a b : number) : bool :=
  match num_compare a b with
  | Some Lt => true
  | _ => false
  end.

Definition num_le (a b : number) : bool :=
  match num_compare a b with
  | Some (Lt | Eq) => true
  | _ => false
  end.

(** [lo <= v <= hi], [lo <= v < hi] and [lo < v <= hi] with [int] bounds:
    the left comparison first, the right one only when the left one holds. *)
Definition between_le_le (lo : Z) (v : value) (hi : Z) : result bool :=
  x ← value_number v; Ok (num_le (NInt lo) x && num_le x (NInt hi)).

Definition between_le_lt (lo : Z) (v : value) (hi : Z) : result bool :=
  x ← value_number v; Ok (num_le (NInt lo) x && num_lt x (NInt hi)).

Definition between_lt_le (lo : Z) (v : value) (hi : Z) : result bool :=
  x ← value_number v; Ok (num_lt (NInt lo) x && num_le x (NInt hi)).

(** [Path(v)] *)
Definition path_of (v : value) : result string :=
  match v with
  | VStr s => Ok s
  | _ => Raise TypeError
  end.

(** What the operating system answers: which paths are regular files, which
    image a file decodes to, the parent directory of a path, whether the
    directories of a path can be created, and the exception, if any, that
    writing an image file at a path ends with. *)
Record OS := mkOS {
  is_file : string -> bool;
  image_at : string -> option AnyImage;
  path_parent : string -> string;
  mkdir_ok : string -> bool;
  save_error : string -> option exn
}.

(** ** Config validator *)

Section Validation.
Context (os : OS).

(** The body of the loop of [_validate_config]. *)
Definition validate_character (has_base_scale : bool) (i : nat)
    (c : gmap string value) : result unit :=
  if negb (dict_has c "sprite_sheet") then Raise (ValueError (MissingSpriteSheet i))
  else
    sheet ← dict_item c "sprite_sheet";
    sheet_path ← path_of sheet;
    if negb (is_file os sheet_path) then Raise (FileNotFoundError sheet_path)
    else
      let pi := dict_get c "pose_index" in
      pi_bad ← (if is_None pi then Ok true
                else negb <$> between_le_lt 0 pi NUM_POSES);
      if pi_bad : bool then Raise (ValueError (PoseIndexRange i))
      else
        let x := dict_get c "x" in
        let y := dict_get c "y" in
        if is_None x || is_None y then Raise (ValueError (MissingXY i))
        else
          x_ok ← between_le_le 0 x 1;
          xy_ok ← (if x_ok : bool then between_le_le 0 y 1 else Ok false);
          if negb xy_ok then Raise (ValueError (XYRange i))
          else
            let has_scale := dict_has c "scale" in
            let has_override := dict_has c "scale_override" in
            if has_base_scale then
              if has_override then
                let so := dict_get c "scale_override" in
                so_bad ← (if is_None so then Ok true
                          else negb <$> between_lt_le 0 so 2);
                if so_bad : bool then Raise (ValueError (ScaleOverrideRange i))
                else Ok ()
              else Ok ()
            else
              let s := dict_get c "scale" in
              s_bad ← (if is_None s then Ok true
                       else negb <$> between_lt_le 0 s 1);
              if s_bad : bool then Raise (ValueError (ScaleRange i))
              else Ok ().

(** [for i, c in enumerate(...)], from index [i] on. *)
Fixpoint validate_characters (has_base_scale : bool) (i : nat)
    (cs : list (gmap string value)) : result unit :=
  match cs with
  | [] => Ok ()
  | c :: cs' =>
      _ ← validate_character has_base_scale i c;
      validate_characters has_base_scale (S i) cs'
  end.

Definition _validate_config (config : Config) : result unit :=
  if negb (dict_has (cfg_fields config) "background")
  then Raise (ValueError MustIncludeBackground)
  else
    match cfg_characters config with
    | None => Raise (ValueError MustIncludeCharacters)
    | Some characters =>
        bg ← dict_item (cfg_fields config) "background";
        bg_path ← path_of bg;
        if negb (is_file os bg_path) then Raise (FileNotFoundError bg_path)
        else
          let has_base_scale := dict_has (cfg_fields config) "base_scale" in
          _ ← validate_characters has_base_scale 0 characters;
          if has_base_scale then
            bs ← dict_item (cfg_fields config) "base_scale";
            bs_ok ← between_lt_le 0 bs 1;
            if negb bs_ok then Raise (ValueError BaseScaleRange)
            else Ok ()
          else Ok ()
    end.

End Validation.

(** ** Files: the images opened and the file written

    [composite] and [composite_to_file] run in a state-and-error monad whose
    state is the log of what was done to the file system, oldest first.
    [EvSave path img] is the call [img.save(path, "PNG")]: the write of the
    file at [path] was started, whether the call then returns or raises. *)

Inductive event :=
  | EvOpen (path : string)
  | EvMkdir (path : string)
  | EvSave (path : string) (img : Image pixel_rgb).

Definition IO (A : Type) : Type := list event -> result A * list event.

#[global] Instance IO_ret : MRet IO := fun A a log => (Ok a, log).
#[global] Instance IO_bind : MBind IO := fun A B k m log =>
  match m log with
  | (Ok a, log') => k a log'
  | (Raise e, log') => (Raise e, log')
  end.

(** A computation that touches no file. *)
Definition pure {A} (r : result A) : IO A := fun log => (r, log).

(** [float(v)].  A string never gets here: validation compares the value
    with an [int] first, which raises for a string. *)
Definition value_float (v : value) : result Float64.float :=
  match v with
  | VStr _ => Raise (ValueError CannotConvert)
  | _ => n ← value_number v; num_float n
  end.

(** [l[idx]] on a list. *)
Definition list_item {A} (l : list A) (idx : value) : result A :=
  match idx with
  | VInt _ | VBool _ =>
      n ← value_number idx ≫= num_int;
      let len := Z.of_nat (length l) in
      list_get l (if n <? 0 then n + len else n)
  | _ => Raise TypeError
  end.

(** The scale of one character, as [composite] determines it. *)
Definition effective_scale (base_scale : value) (c : gmap string value) : result number :=
  if negb (is_None base_scale) then
    let scale_override := default (VFloat Float64.lit_1_0) (c !! "scale_override") in
    b ← value_number base_scale;
    o ← value_number scale_override;
    num_mul b o
  else
    s ← dict_item c "scale";
    NFloat <$> value_float s.

Section Composite.
Context `{Pil} (os : OS).

(** [Image.open(path)] *)
Definition image_open (path : string) : IO AnyImage := fun log =>
  (if is_file os path then
     match image_at os path with
     | Some img => Ok img
     | None => Raise (OSError path)
     end
   else Raise (FileNotFoundError path),
   log ++ [EvOpen path]).

(** The body of the loop of [composite]: one character onto the canvas. *)
Definition composite_character (background : Image pixel_rgb) (bg_w bg_h : Z)
    (base_scale : value) (canvas : Image pixel_rgba) (c : gmap string value)
    : IO (Image pixel_rgba) :=
  sheet_path ← pure (dict_item c "sprite_sheet" ≫= path_of);
  sheet_img ← image_open sheet_path;
  pure (
    let sheet := convert_RGB sheet_img in
    poses ← _crop_poses sheet;
    idx ← dict_item c "pose_index";
    pose ← list_item poses idx;
    pose_rgba ← _remove_white_background (ImRGB pose);
    let feet_row_orig := _lowest_opaque_row pose_rgba in
    scale ← effective_scale base_scale c;
    pose_scaled ← _resize_pose pose_rgba bg_w bg_h scale;
    let orig_h := height pose_rgba in
    let scaled_h := height pose_scaled in
    feet ← feet_row_scaled feet_row_orig orig_h scaled_h;
    x ← dict_item c "x" ≫= value_float;
    y ← dict_item c "y" ≫= value_float;
    _composite_one canvas background pose_scaled x y bg_w bg_h feet).

(** [for c in config["characters"]] *)
Fixpoint composite_characters (background : Image pixel_rgb) (bg_w bg_h : Z)
    (base_scale : value) (canvas : Image pixel_rgba)
    (cs : list (gmap string value)) : IO (Image pixel_rgba) :=
  match cs with
  | [] => mret canvas
  | c :: cs' =>
      canvas ← composite_character background bg_w bg_h base_scale canvas c;
      composite_characters background bg_w bg_h base_scale canvas cs'
  end.

Definition composite (config : Config) : IO (Image pixel_rgb) :=
  _ ← pure (_validate_config os config);
  bg_path ← pure (dict_item (cfg_fields config) "background" ≫= path_of);
  bg_img ← image_open bg_path;
  let background := convert_RGB bg_img in
  let '(bg_w, bg_h) := (width background, height background) in
  let canvas := convert_RGBA (ImRGB background) in
  let base_scale := dict_get (cfg_fields config) "base_scale" in
  characters ← pure (match cfg_characters config with
                     | Some cs => Ok cs
                     | None => Raise (KeyError "characters")
                     end);
  canvas ← composite_characters background bg_w bg_h base_scale canvas characters;
  mret (convert_RGB (ImRGBA canvas)).

(** [img.save(path, "PNG")] *)
Definition image_save (path : string) (img : Image pixel_rgb) : IO unit := fun log =>
  (match save_error os path with
   | None => Ok ()
   | Some e => Raise e
   end,
   log ++ [EvSave path img]).

Definition composite_to_file (config : Config) (output_path : string) : IO unit :=
  let parent := path_parent os output_path in
  _ ← (fun log => (if mkdir_ok os parent then Ok () else Raise (OSError parent),
                   log ++ [EvMkdir parent]));
  img ← composite config;
  image_save output_path img.

End Composite.

(** ** A reference imaging backend

    A small, executable backend: box blur with clamped borders,
    nearest-neighbour resampling and integer alpha blending; a resize to a
    size, and a paste at a box, that does not fit 32-bit integers raises
    [OverflowError].  It is what the examples below run on; every general
    result holds for any backend. *)

Definition c_int (n : Z) : bool := (- 2 ^ 31 <=? n) && (n <? 2 ^ 31).

Definition clamp (lo hi v : Z) : Z := Z.max lo (Z.min hi v).

Definition box_blur (r : Z) (img : Image Z) : Image Z :=
  let w := width img in
  let h := height img in
  let offsets := seqZ (- r) (2 * r + 1) in
  mkImage w h (fun x y =>
    let total :=
      foldr Z.add 0
        (dy ← offsets; dx ← offsets;
         [px img (clamp 0 (w - 1) (x + dx)) (clamp 0 (h - 1) (y + dy))]) in
    total / ((2 * r + 1) * (2 * r + 1))).

Definition blend (m src dst : Z) : Z := (src * m + dst * (255 - m)) / 255.

Definition blend_rgba (m : Z) (src dst : pixel_rgba) : pixel_rgba :=
  (blend m src.1.1.1 dst.1.1.1, blend m src.1.1.2 dst.1.1.2,
   blend m src.1.2 dst.1.2, blend m src.2 dst.2).

Definition paste_with {S M} (to_rgba : S -> pixel_rgba) (to_mask : M -> Z)
    (dst : Image pixel_rgba) (src : Image S) (pos : Z * Z) (mask : Image M)
    : Image pixel_rgba :=
  mkImage (width dst) (height dst) (fun x y =>
    let sx := x - pos.1 in
    let sy := y - pos.2 in
    if (0 <=? sx) && (sx <? width src) && (0 <=? sy) && (sy <? height src)
    then blend_rgba (to_mask (px mask sx sy)) (to_rgba (px src sx sy)) (px dst x y)
    else px dst x y).

Definition nearest_resize (img : Image pixel_rgba) (size : Z * Z)
    : result (Image pixel_rgba) :=
  if c_int size.1 && c_int size.2
  then Ok (mkImage size.1 size.2 (fun x y =>
             px img (x * width img / size.1) (y * height img / size.2)))
  else Raise OverflowError.

Definition checked_paste (dst src : Image pixel_rgba) (pos : Z * Z)
    (mask : Image pixel_rgba) : result (Image pixel_rgba) :=
  if c_int pos.1 && c_int pos.2 &&
     c_int (pos.1 + width src) && c_int (pos.2 + height src)
  then Ok (paste_with (fun p : pixel_rgba => p) (fun p : pixel_rgba => p.2)
             dst src pos mask)
  else Raise OverflowError.

Definition reference_pil : Pil := {|
  gaussian_blur_L := box_blur;
  gaussian_blur_RGBA := fun r img =>
    merge_bands (box_blur r (band_R img)) (box_blur r (band_G img))
                (box_blur r (band_B img)) (box_blur r (band_A img));
  resize_lanczos := nearest_resize;
  paste_L := paste_with (fun v : Z => (v, v, v, 255)) (fun m : Z => m);
  paste_RGBA := checked_paste;
  gaussian_blur_L_size := fun r img => conj eq_refl eq_refl;
  resize_lanczos_size := fun img size out =>
    ltac:(unfold nearest_resize; destruct (c_int size.1 && c_int size.2);
          [intros [= <-]; split; reflexivity | discriminate])
|}.

(** ** Sample images, as the test-suite builds them *)

(** [Image.new("RGB", (10, 10), (255, 255, 255))] with pixel [(5, 5)] set to
    [(232, 232, 232)]. *)
Definition transition_band_image : AnyImage :=
  ImRGB (mkImage 10 10 (fun x y =>
    if (x =? 5) && (y =? 5) then (232, 232, 232) else (255, 255, 255))).

(** A 20 x 30 RGBA image, transparent except for rows 10..20. *)
Definition feet_test_image : Image pixel_rgba :=
  mkImage 20 30 (fun x y =>
    if (10 <=? y) && (y <=? 20) then (255, 0, 0, 255) else (255, 0, 0, 0)).

(** ** Rounding and truncation, as arithmetic *)

(** The integer nearest to [n / d], for [d > 0]; a tie goes to the even
    neighbour, as Python's [round] does. *)
Definition round_div (n d : Z) : Z :=
  let q := n / d in
  let r := n mod d in
  if 2 * r <? d then q
  else if d <? 2 * r then q + 1
  else if Z.even q then q else q + 1.

(** The value [m * 2 ^ e] of a finite [float] with its fractional part
    dropped: the quotient rounded toward zero. *)
Definition truncation (x : Float64.float) : Z :=
  match x with
  | S754_finite s m e =>
      ((if s then Zneg m else Zpos m) * 2 ^ Z.max e 0) ÷ 2 ^ Z.max (- e) 0
  | _ => 0
  end.

(** A float that is a zero, or a finite number of sign [s], below [2 ^ K]
    in magnitude and with an exponent of at most [E]. *)
Definition within (x : Float64.float) (s : bool) (K E : Z) : Prop :=
  match x with
  | S754_zero _ => True
  | S754_finite s' m e => s' = s /\ Zdigits2 (Z.pos m) + e <= K /\ e <= E
  | _ => False
  end.

(** The integer nearest to the product of a finite [float] and an [int]. *)
Definition round_product (x : Float64.float) (n : Z) : option Z :=
  match x with
  | S754_zero _ => Some 0
  | S754_finite s m e =>
      let sm := if s then Zneg m else Zpos m in
      Some (match e with
            | Zneg p => round_div (sm * n) (Z.pow_pos 2 p)
            | _ => sm * 2 ^ e * n
            end)
  | _ => None
  end.

(** [0.75], [0.5] and [0.8] as binary64 numbers. *)
Definition lit_0_75 : Float64.float := Eval vm_compute in Float64.literal 75 100.
Definition lit_0_5 : Float64.float := Eval vm_compute in Float64.literal 5 10.
Definition lit_0_8 : Float64.float := Eval vm_compute in Float64.literal 8 10.

(** ** The constraints on a config, as predicates *)

(** The value is a number (an [int], a [bool] or a [float]) that passes [test]. *)
Definition value_has (test : number -> bool) (v : value) : Prop :=
  exists n, value_number v = Ok n /\ test n = true.

Definition in_0_1 (n : number) : bool := num_le (NInt 0) n && num_le n (NInt 1).
Definition in_pose_range (n : number) : bool := num_le (NInt 0) n && num_lt n (NInt NUM_POSES).
Definition in_scale_range (n : number) : bool := num_lt (NInt 0) n && num_le n (NInt 1).
Definition in_override_range (n : number) : bool := num_lt (NInt 0) n && num_le n (NInt 2).

(** The value is an integer from 0 to 4. *)
Definition integer_pose_index (v : value) : Prop :=
  exists k, value_number v = Ok (NInt k) /\ 0 <= k <= NUM_POSES - 1.

Definition existing_file (os : OS) (v : option value) : Prop :=
  exists p, v = Some (VStr p) /\ is_file os p = true.

(** The constraints on one character entry; [pose_ok] is the constraint on
    its pose index. *)
Definition character_constraints (pose_ok : value -> Prop) (os : OS)
    (has_base_scale : bool) (c : gmap string value) : Prop :=
  existing_file os (c !! "sprite_sheet") /\
  pose_ok (dict_get c "pose_index") /\
  value_has in_0_1 (dict_get c "x") /\
  value_has in_0_1 (dict_get c "y") /\
  (if has_base_scale
   then is_Some (c !! "scale_override") ->
        value_has in_override_range (dict_get c "scale_override")
   else value_has in_scale_range (dict_get c "scale")).

Definition config_constraints (pose_ok : value -> Prop) (os : OS) (config : Config) : Prop :=
  existing_file os (cfg_fields config !! "background") /\
  (exists characters, cfg_characters config = Some characters /\
     Forall (character_constraints pose_ok os
               (dict_has (cfg_fields config) "base_scale")) characters) /\
  (forall bs, cfg_fields config !! "base_scale" = Some bs -> value_has in_scale_range bs).

(** The constraints of the specification: the pose index is an integer. *)
Definition spec_constraints : OS -> Config -> Prop :=
  config_constraints integer_pose_index.

(** The constraints the validator enforces: the pose index is any number
    from 0 up to, not including, 5. *)
Definition enforced_constraints : OS -> Config -> Prop :=
  config_constraints (value_has in_pose_range).

(** The exceptions validation can end with. *)
Definition validation_exn (e : exn) : Prop :=
  (exists v, e = ValueError v) \/ (exists p, e = FileNotFoundError p) \/ e = TypeError.

(** ** Sample configs *)

Definition all_files : OS :=
  mkOS (fun _ => true)
       (fun _ => Some (ImRGB (mkImage 100 50 (fun _ _ => (200, 0, 0)))))
       (fun _ => "out"%string) (fun _ => true) (fun _ => None).

Definition lit_2_5 : Float64.float := Eval vm_compute in Float64.literal 25 10.
Definition lit_0_3 : Float64.float := Eval vm_compute in Float64.literal 3 10.

Definition character_entry (pose_index : value) : gmap string value :=
  {[ "sprite_sheet"%string := VStr "sprite.png";
     "pose_index"%string := pose_index;
     "x"%string := VFloat lit_0_5;
     "y"%string := VFloat lit_0_8;
     "scale"%string := VFloat lit_0_3 ]}.

(** A config whose only character has pose index [2.5]. *)
Definition fractional_pose_config : Config :=
  mkConfig {[ "background"%string := VStr "bg.png" ]}
           (Some [character_entry (VFloat lit_2_5)]).

Definition valid_config : Config :=
  mkConfig {[ "background"%string := VStr "bg.png" ]}
           (Some [character_entry (VInt 0)]).

(** The config of the out-of-range test: pose index 5. *)
Definition pose_5_config : Config :=
  mkConfig {[ "background"%string := VStr "bg.png" ]}
           (Some [character_entry (VInt 5)]).

(** ** What a run did to the files *)


Definition is_open (ev : event) : bool :=
  match ev with
  | EvOpen _ => true
  | _ => false
  end.

(** The computation only ever adds [Image.open] events to the log. *)
Definition only_opens {A} (m : IO A) : Prop :=
  forall log, exists evs,
    (m log).2 = log ++ evs /\ forallb is_open evs = true.

(** Two character entries that differ in the scale override only. *)
Definition with_override (o : option value) : gmap string value :=
  let base : gmap string value :=
    {[ "sprite_sheet"%string := VStr "sprite.png";
       "pose_index"%string := VInt 0;
       "x"%string := VFloat lit_0_5;
       "y"%string := VFloat lit_0_8 ]} in
  match o with
  | Some v => <["scale_override"%string := v]> base
  | None => base
  end.

Definition lit_0_25 : Float64.float := Float64.lit_0_25.


(** A file system with an 8 x 8 grey background and 5 x 2 red sprite sheets. *)
Definition tiny_os : OS :=
  mkOS (fun _ => true)
       (fun p => if decide (p = "bg.png"%string)
                 then Some (ImRGB (mkImage 8 8 (fun _ _ => (128, 128, 128))))
                 else Some (ImRGB (mkImage 5 2 (fun _ _ => (200, 0, 0)))))
       (fun _ => "out"%string) (fun _ => true) (fun _ => None).

Definition describe (ev : event) : string :=
  match ev with
  | EvOpen p => "open " ++ p
  | EvMkdir p => "mkdir " ++ p
  | EvSave p _ => "save " ++ p
  end.

(** ** The keying rule and the feet row, as predicates *)

(** The alpha the keying rule of the specification gives a pixel of
    whiteness [L] and original alpha [a]. *)
Definition spec_keyed_alpha (L a : Z) : Z :=
  if WHITE_HIGH <=? L then 0
  else if L <=? WHITE_LOW then a
  else a * (WHITE_HIGH - L) / (WHITE_HIGH - WHITE_LOW).

(** The floating-point part of [key_pixel], on its own. *)
Definition band_alpha (L orig_a : Z) : result Z :=
  falloff ← Float64.truediv (WHITE_HIGH - L) (WHITE_HIGH - WHITE_LOW);
  scaled ← Float64.int_mul orig_a falloff;
  Float64.to_int scaled.

(** One entry of the table of the band: whiteness [221 + k], alpha [a]. *)
Definition band_entry_ok (k a : nat) : bool :=
  match band_alpha (221 + Z.of_nat k) (Z.of_nat a) with
  | Ok v => v =? Z.of_nat a * (WHITE_HIGH - (221 + Z.of_nat k)) / (WHITE_HIGH - WHITE_LOW)
  | Raise _ => false
  end.

(** Every alpha value of the image is an 8-bit value. *)
Definition alpha_8bit (img : AnyImage) : Prop :=
  forall x y, 0 <= x < any_width img -> 0 <= y < any_height img ->
    0 <= (px (convert_RGBA img) x y).2 <= 255.

(** One pixel of the keyed image, as the rule of the specification gives it. *)
Definition spec_keyed_pixel (p : pixel_rgb) (a : Z) : pixel_rgba :=
  (p, spec_keyed_alpha (Z.max (Z.max p.1.1 p.1.2) p.2) a).

(** The pixel is opaque enough to count as part of the sprite. *)
Definition opaque_at (pose : Image pixel_rgba) (x y : Z) : Prop :=
  FEET_ALPHA_THRESHOLD <= (px pose x y).2.

(** ** The shadow colour, step by step *)

(** [(r + g + b) / 3] of one pixel, in binary64. *)
Definition luminance (p : pixel_rgb) : Float64.float :=
  SFdiv Float64.prec Float64.emax (Float64.exact (p.1.1 + p.1.2 + p.2)) (Float64.exact 3).

(** The pixels whose luminance lies between [lo] and [hi]; all the pixels
    when there is none. *)
Definition dark_band (lo hi : Float64.float) (pixels : list pixel_rgb) : list pixel_rgb :=
  let dark_pixels :=
    (filter (fun pl : pixel_rgb * Float64.float =>
               Is_true (Float64.leb lo pl.2 && Float64.leb pl.2 hi))
            (zip pixels (luminance <$> pixels))).*1 in
  match dark_pixels with [] => pixels | _ => dark_pixels end.

(** [sum(channel) // len(pixels)] *)
Definition average (channel : pixel_rgb -> Z) (pixels : list pixel_rgb) : Z :=
  sum_list_Z (channel <$> pixels) / Z.of_nat (length pixels).

Definition rgb_8bit (p : pixel_rgb) : Prop :=
  0 <= p.1.1 <= 255 /\ 0 <= p.1.2 <= 255 /\ 0 <= p.2 <= 255.

(** Every pixel of the image is an 8-bit colour. *)
Definition image_8bit (img : Image pixel_rgb) : Prop :=
  forall x y, 0 <= x < width img -> 0 <= y < height img -> rgb_8bit (px img x y).

(** The region [_sample_shadow_color] reads, clamped to the image. *)
Definition clamped_region (img : Image pixel_rgb) (region : Z * Z * Z * Z) : Z * Z * Z * Z :=
  let '(x0, y0, x1, y1) := region in
  (Z.max 0 x0, Z.max 0 y0, Z.min (width img) x1, Z.min (height img) y1).

(** The body of [_sample_shadow_color] from the pixel list on. *)
Definition sample_pixels (pixels : list pixel_rgb) : result pixel_rgb :=
  match pixels with
  | [] => Ok dark_gray
  | _ =>
    luminances ← mapM (fun p : pixel_rgb => Float64.truediv (p.1.1 + p.1.2 + p.2) 3) pixels;
    let sorted_lums := sorted_floats luminances in
    let n := Z.of_nat (length sorted_lums) in
    if n =? 0 then Ok dark_gray
    else
      i10 ← (p ← Float64.int_mul n Float64.lit_0_1; Float64.to_int p);
      i25 ← (p ← Float64.int_mul n Float64.lit_0_25; Float64.to_int p);
      let p10_idx := Z.max 0 i10 in
      let p25_idx := Z.min (n - 1) i25 in
      lo ← list_get sorted_lums p10_idx;
      hi ← list_get sorted_lums p25_idx;
      let dark_pixels :=
        (filter (fun pl : pixel_rgb * Float64.float =>
                   Is_true (Float64.leb lo pl.2 && Float64.leb pl.2 hi))
                (zip pixels luminances)).*1 in
      let dark_pixels := match dark_pixels with [] => pixels | _ => dark_pixels end in
      let count := Z.of_nat (length dark_pixels) in
      let avg_r := sum_list_Z ((fun p : pixel_rgb => p.1.1) <$> dark_pixels) / count in
      let avg_g := sum_list_Z ((fun p : pixel_rgb => p.1.2) <$> dark_pixels) / count in
      let avg_b := sum_list_Z ((fun p : pixel_rgb => p.2) <$> dark_pixels) / count in
      Ok (avg_r, avg_g, avg_b)
  end.

(** ** The shadow layer, step by step *)

(** [int(a * SHADOW_OPACITY)] *)
Definition shadow_alpha (a : Z) : result Z :=
  q ← Float64.int_mul a SHADOW_OPACITY; Float64.to_int q.

(** One entry of the table of shadow alphas: the result is 35 % of [a]
    rounded down, or one less, and is not negative. *)
Definition shadow_alpha_entry_ok (a : nat) : bool :=
  match shadow_alpha (Z.of_nat a) with
  | Ok v => (Z.of_nat a * 35 / 100 - 1 <=? v) && (v <=? Z.of_nat a * 35 / 100) && (0 <=? v)
  | Raise _ => false
  end.

(** One pixel of the shadow, from the pixel of the blurred silhouette. *)
Definition shadow_pixel (c : pixel_rgb) (p : pixel_rgba) : pixel_rgba :=
  if 0 <? p.2
  then (c, match shadow_alpha p.2 with Ok v => v | Raise _ => 0 end)
  else (0, 0, 0, 0).

(** The padding [_shadow_from_alpha] puts around the silhouette. *)
Definition shadow_pad (offset : Z * Z) (blur : Z) : Z :=
  blur * 2 + Z.max (Z.abs offset.1) (Z.abs offset.2).

(** The blurred silhouette [_shadow_from_alpha] reads the alpha from. *)
Definition shadow_layer `{Pil} (alpha : Image Z) (offset : Z * Z) (blur : Z)
    : Image pixel_rgba :=
  let pad := shadow_pad offset blur in
  let tw := width alpha + 2 * pad in
  let th := height alpha + 2 * pad in
  let layer := image_new (tw, th) (0, 0, 0, 0) in
  let layer := paste_L layer alpha (pad + offset.1, pad + offset.2) alpha in
  gaussian_blur_RGBA blur layer.

(** The alpha of every pixel is an 8-bit value, checked pixel by pixel. *)
Definition alpha_8bit_check (img : Image pixel_rgba) : bool :=
  forallb (fun p : pixel_rgba => (0 <=? p.2) && (p.2 <=? 255)) (getdata img).

(** ** More sample images and configs *)

(** An 8 x 8 grey background. *)
Definition gray_background : Image pixel_rgb := mkImage 8 8 (fun _ _ => (128, 128, 128)).

(** A 2 x 2 opaque red pose. *)
Definition red_pose : Image pixel_rgba := image_new (2, 2) (200, 0, 0, 255).

(** A 103 x 50 sheet whose pixels carry their own coordinates. *)
Definition numbered_sheet : Image pixel_rgb := mkImage 103 50 (fun x y => (x, y, 0)).

Definition numbered_frames : list (Image pixel_rgb) :=
  match _crop_poses numbered_sheet with
  | Ok poses => poses
  | Raise _ => []
  end.

(** Three entries, the second with pose index 5. *)
Definition second_entry_bad_config : Config :=
  mkConfig {[ "background"%string := VStr "bg.png" ]}
           (Some [character_entry (VInt 0); character_entry (VInt 5); character_entry VNone]).

(** A valid entry under a base scale of 3. *)
Definition bad_base_scale_config : Config :=
  mkConfig {[ "background"%string := VStr "bg.png"; "base_scale"%string := VInt 3 ]}
           (Some [with_override None]).

(** A scene with no character. *)
Definition empty_scene_config : Config :=
  mkConfig {[ "background"%string := VStr "bg.png" ]} (Some []).

(** A file system whose sprite sheets are 4 pixels wide. *)
Definition narrow_sheet_os : OS :=
  mkOS (fun _ => true)
       (fun p => if decide (p = "bg.png"%string)
                 then Some (ImRGB (mkImage 8 8 (fun _ _ => (128, 128, 128))))
                 else Some (ImRGB (mkImage 4 2 (fun _ _ => (200, 0, 0)))))
       (fun _ => "out"%string) (fun _ => true) (fun _ => None).

(** The file system of [tiny_os], where no directory can be created. *)
Definition readonly_os : OS :=
  mkOS (is_file tiny_os) (image_at tiny_os) (path_parent tiny_os) (fun _ => false)
       (save_error tiny_os).

(** The file system of [tiny_os], where writing a file fails. *)
Definition full_disk_os : OS :=
  mkOS (is_file tiny_os) (image_at tiny_os) (path_parent tiny_os) (mkdir_ok tiny_os)
       (fun p => Some (OSError p)).

(** ** The files a run opens *)

(** The sprite sheet of each character entry, in list order. *)
Definition sheet_paths (cs : list (gmap string value)) : list string :=
  omap (fun c : gmap string value =>
          match c !! "sprite_sheet" with
          | Some (VStr p) => Some p
          | _ => None
          end) cs.

Definition is_Ok {A} (r : result A) : bool :=
  match r with
  | Ok _ => true
  | Raise _ => false
  end.

(** ** Command line *)

(** The arguments as [parser.parse_args()] returns them; [--output] is
    required, the others are [None] when not given. *)
Record Args := mkArgs {
  arg_config : option string;
  arg_background : option string;
  arg_characters : option string;
  arg_output : string
}.

(** What the JSON parser answers for a readable file and for a string;
    [None] stands for [json.JSONDecodeError]. *)
Record Json := mkJson {
  json_load : string -> option Config;
  json_loads : string -> option (list (gmap string value))
}.

(** The messages [_cli] prints before [sys.exit(1)]. *)
Inductive cli_error :=
  | ConfigNotFound (path : string)
  | InvalidConfigJSON
  | BackgroundRequired
  | CharactersRequired
  | InvalidCharactersJSON
  | CompositeFailed (e : exn).

(** How [_cli] ends: [sys.exit(1)] after its own message, a return after
    printing [Saved: path], or an exception that nothing catches, which ends
    the process with a traceback (and with status 1 as well). *)
Inductive cli_outcome :=
  | Exit1 (msg : cli_error)
  | Saved (path : string)
  | Uncaught (e : exn).

(** An optional argument that is given and not empty: [if args.x]. *)
Definition truthy (a : option string) : option string :=
  match a with
  | Some s => if decide (s = ""%string) then None else Some s
  | None => None
  end.

Section Cli.
Context `{Pil} (os : OS) (json : Json).

(** The config [_cli] builds, or the message it exits with. *)
Definition cli_config (args : Args) : cli_error + Config :=
  match truthy (arg_config args) with
  | Some config_path =>
      if negb (is_file os config_path) then inl (ConfigNotFound config_path)
      else match json_load json config_path with
           | Some config => inr config
           | None => inl InvalidConfigJSON
           end
  | None =>
      match truthy (arg_background args) with
      | None => inl BackgroundRequired
      | Some background =>
          match truthy (arg_characters args) with
          | None => inl CharactersRequired
          | Some text =>
              match json_loads json text with
              | None => inl InvalidCharactersJSON
              | Some characters =>
                  inr (mkConfig {[ "background"%string := VStr background ]}
                                (Some characters))
              end
          end
      end
  end.

Definition _cli (args : Args) (log : list event) : cli_outcome * list event :=
  match cli_config args with
  | inl msg => (Exit1 msg, log)
  | inr config =>
      match composite_to_file os config (arg_output args) log with
      | (Ok _, log') => (Saved (arg_output args), log')
      | (Raise (FileNotFoundError p), log') =>
          (Exit1 (CompositeFailed (FileNotFoundError p)), log')
      | (Raise (ValueError v), log') => (Exit1 (CompositeFailed (ValueError v)), log')
      | (Raise e, log') => (Uncaught e, log')
      end
  end.

End Cli.

(** A parser that reads the out-of-range config from any file and one
    valid placement from any string. *)
Definition sample_json : Json :=
  mkJson (fun _ => Some pose_5_config) (fun _ => Some [character_entry (VInt 0)]).

Definition config_args : Args :=
  mkArgs (Some "scene.json"%string) None None "out/scene.png".

Definition inline_args : Args :=
  mkArgs None (Some "bg.png"%string) (Some "placements"%string) "out/scene.png".

(** * Properties *)

(** ** The keying rule, pixel by pixel *)

(** The table, checked entry by entry by evaluation. *)
Lemma band_table :
  forallb (fun k => forallb (band_entry_ok k) (seq 0 256)) (seq 0 24) = true.
Proof. vm_cast_no_check (eq_refl true). Qed.

Lemma band_table_lookup (k a : nat) :
  (k < 24)%nat -> (a < 256)%nat -> band_entry_ok k a = true.
Proof.
  intros Hk Ha.
  assert (Hrow : forallb (band_entry_ok k) (seq 0 256) = true).
  { apply (proj1 (forallb_forall (fun k => forallb (band_entry_ok k) (seq 0 256))
                    (seq 0 24)) band_table k).
    apply in_seq. lia. }
  apply (proj1 (forallb_forall (band_entry_ok k) (seq 0 256)) Hrow a).
  apply in_seq. lia.
Qed.

(** Inside the band the binary64 computation [int(a * ((245 - L) / 25))]
    agrees with the exact integer quotient, for every 8-bit alpha. *)
Lemma band_alpha_exact (L a : Z) :
  WHITE_LOW < L < WHITE_HIGH -> 0 <= a <= 255 ->
  band_alpha L a = Ok (a * (WHITE_HIGH - L) / (WHITE_HIGH - WHITE_LOW)).
Proof.
  unfold WHITE_LOW, WHITE_HIGH. intros HL Ha.
  pose proof (band_table_lookup (Z.to_nat (L - 221)) (Z.to_nat a)
                ltac:(lia) ltac:(lia)) as T.
  unfold band_entry_ok in T.
  replace (221 + Z.of_nat (Z.to_nat (L - 221))) with L in T by lia.
  replace (Z.of_nat (Z.to_nat a)) with a in T by lia.
  destruct (band_alpha L a) as [v|e]; [|discriminate].
  apply Z.eqb_eq in T. unfold WHITE_HIGH, WHITE_LOW in T. by rewrite T.
Qed.

Lemma key_pixel_unfold (r g b a : Z) :
  key_pixel (r, g, b) a =
    let L := Z.max (Z.max r g) b in
    if WHITE_HIGH <=? L then Ok (r, g, b, 0)
    else if L <=? WHITE_LOW then Ok (r, g, b, a)
    else v ← band_alpha L a; Ok (r, g, b, v).
Proof.
  unfold key_pixel, band_alpha. cbv zeta.
  repeat case_match; try reflexivity.
  destruct (Float64.truediv _ _) as [q|]; simpl; [|reflexivity].
  destruct (Float64.int_mul a q) as [s|]; simpl; [|reflexivity].
  by destruct (Float64.to_int s).
Qed.

(** [key_pixel] on an 8-bit alpha: it never raises, copies the colour and
    sets the alpha the rule gives. *)
Lemma key_pixel_spec (r g b a : Z) :
  0 <= a <= 255 ->
  key_pixel (r, g, b) a = Ok (r, g, b, spec_keyed_alpha (Z.max (Z.max r g) b) a).
Proof.
  intros Ha. rewrite key_pixel_unfold. cbv zeta. unfold spec_keyed_alpha.
  destruct (Z.leb_spec WHITE_HIGH (Z.max (Z.max r g) b)) as [Hh|Hh]; [reflexivity|].
  destruct (Z.leb_spec (Z.max (Z.max r g) b) WHITE_LOW) as [Hl|Hl]; [reflexivity|].
  by rewrite band_alpha_exact.
Qed.

(** The rule is non-increasing in the whiteness. *)
Lemma spec_keyed_alpha_mono (L1 L2 a : Z) :
  0 <= a -> L1 <= L2 -> spec_keyed_alpha L2 a <= spec_keyed_alpha L1 a.
Proof.
  intros Ha HL. unfold spec_keyed_alpha, WHITE_HIGH, WHITE_LOW.
  repeat match goal with
         | |- context [?x <=? ?y] => destruct (Z.leb_spec x y)
         end;
    first [ lia
          | apply Z.div_pos; [nia | lia]
          | apply Z.div_le_upper_bound; [lia | nia]
          | apply Z.div_le_mono; [lia | nia] ].
Qed.

(** ** Pixel data as a list *)

Lemma py_range_lookup (n : Z) (i : nat) :
  (i < Z.to_nat n)%nat -> py_range n !! i = Some (Z.of_nat i).
Proof. intros Hi. unfold py_range. rewrite lookup_seqZ_lt by lia. f_equal; lia. Qed.

Lemma length_py_range (n : Z) : length (py_range n) = Z.to_nat n.
Proof. apply length_seqZ. Qed.

Lemma elem_of_py_range (n x : Z) : x ∈ py_range n <-> 0 <= x < n.
Proof. unfold py_range. rewrite elem_of_seqZ. lia. Qed.

(** Rows of equal length laid end to end: element [j] of row [i] is at
    [i * n + j]. *)
Lemma bind_rows_lookup {A B} (f : A -> list B) (n : nat) (l : list A) (i j : nat) (a : A) :
  (forall a', length (f a') = n) ->
  l !! i = Some a -> (j < n)%nat ->
  (l ≫= f) !! (i * n + j)%nat = f a !! j.
Proof.
  intros Hlen. revert i. induction l as [|a0 l IH]; intros i Hi Hj; [done|].
  rewrite bind_cons. destruct i as [|i]; simpl in Hi.
  - injection Hi as ->. simpl. rewrite lookup_app_l; [done|]. by rewrite Hlen.
  - rewrite lookup_app_r by (rewrite Hlen; lia).
    rewrite Hlen. replace (S i * n + j - n)%nat with (i * n + j)%nat by lia.
    by apply IH.
Qed.

Lemma bind_singleton_fmap {A B} (f : A -> B) (l : list A) :
  (l ≫= fun x => [f x]) = f <$> l.
Proof. induction l as [|a l IH]; [done|]. rewrite bind_cons, IH. done. Qed.

Lemma getdata_lookup {P} (img : Image P) (x y : Z) :
  0 <= x < width img -> 0 <= y < height img ->
  getdata img !! Z.to_nat (y * width img + x) = Some (px img x y).
Proof.
  intros Hx Hy. unfold getdata.
  replace (Z.to_nat (y * width img + x))
    with (Z.to_nat y * Z.to_nat (width img) + Z.to_nat x)%nat by nia.
  rewrite (bind_rows_lookup _ (Z.to_nat (width img)) _ _ _ (Z.of_nat (Z.to_nat y))).
  - rewrite bind_singleton_fmap, list_lookup_fmap, py_range_lookup by lia.
    simpl. do 2 f_equal; lia.
  - intros y'. by rewrite bind_singleton_fmap, length_fmap, length_py_range.
  - apply py_range_lookup. lia.
  - lia.
Qed.

Lemma mapM_result_ok {A B} (f : A -> result B) (g : A -> B) (l : list A) :
  (forall a, a ∈ l -> f a = Ok (g a)) -> mapM f l = Ok (g <$> l).
Proof.
  induction l as [|a l IH]; intros Hf; [done|].
  simpl. rewrite Hf by left. simpl. rewrite IH; [done|].
  intros a' Ha'. apply Hf. by right.
Qed.

Lemma elem_of_getdata {P} (img : Image P) (p : P) :
  p ∈ getdata img ->
  exists x y, 0 <= x < width img /\ 0 <= y < height img /\ p = px img x y.
Proof.
  unfold getdata. intros (y & Hp & Hy%elem_of_py_range)%list_elem_of_bind.
  apply list_elem_of_bind in Hp as (x & Hp & Hx%elem_of_py_range).
  apply list_elem_of_singleton in Hp. eauto.
Qed.

Lemma convert_size (img : AnyImage) :
  width (convert_RGB img) = width (convert_RGBA img) /\
  height (convert_RGB img) = height (convert_RGBA img).
Proof. by destruct img. Qed.

Lemma key_data_spec (img : AnyImage) :
  alpha_8bit img ->
  exists out, key_data img = Ok out /\
    width out = any_width img /\ height out = any_height img /\
    forall x y, 0 <= x < any_width img -> 0 <= y < any_height img ->
      px out x y =
        spec_keyed_pixel (px (convert_RGB img) x y) (px (convert_RGBA img) x y).2.
Proof.
  intros H8. unfold key_data. cbv zeta.
  destruct (convert_size img) as [Hw Hh].
  assert (E : mapM (fun pq : pixel_rgb * pixel_rgba => key_pixel pq.1 pq.2.2)
                (zip (getdata (convert_RGB img)) (getdata (convert_RGBA img)))
              = Ok ((fun pq : pixel_rgb * pixel_rgba => spec_keyed_pixel pq.1 pq.2.2)
                      <$> zip (getdata (convert_RGB img)) (getdata (convert_RGBA img)))).
  { apply mapM_result_ok. intros [[[r g] b] q] Hin.
    apply elem_of_zip_r, elem_of_getdata in Hin as (x & y & Hx & Hy & ->).
    simpl. apply key_pixel_spec. by apply H8. }
  rewrite E. simpl. eexists. split; [reflexivity|]. split; [done|]. split; [done|].
  intros x y Hx Hy. unfold any_width, any_height in *. simpl.
  rewrite list_lookup_fmap, lookup_zip_with.
  rewrite <- Hw at 1. rewrite !getdata_lookup by lia. done.
Qed.

(** ** Background keyer *)

(** C1. Before the blur, a pixel of whiteness [L = max(R, G, B)] and original
    alpha [a] gets alpha 0 when [L >= 245], alpha [a] when [L <= 220], and
    [a * (245 - L) / (245 - 220)] truncated to an integer in between; the
    keying pass raises nothing on an image with 8-bit alpha. *)
Theorem keyer_alpha_rule (img : AnyImage) :
  alpha_8bit img ->
  exists keyed, key_data img = Ok keyed /\
    forall x y, 0 <= x < any_width img -> 0 <= y < any_height img ->
      let '(r, g, b) := px (convert_RGB img) x y in
      let a := (px (convert_RGBA img) x y).2 in
      let L := Z.max (Z.max r g) b in
      let alpha := (px keyed x y).2 in
      (WHITE_HIGH <= L -> alpha = 0) /\
      (L <= WHITE_LOW -> alpha = a) /\
      (WHITE_LOW < L < WHITE_HIGH ->
         alpha = (a * (WHITE_HIGH - L)) ÷ (WHITE_HIGH - WHITE_LOW)).
Proof.
  intros H8. destruct (key_data_spec img H8) as (keyed & E & _ & _ & Hpx).
  exists keyed. split; [done|]. intros x y Hx Hy.
  rewrite (Hpx x y Hx Hy). specialize (H8 x y Hx Hy).
  destruct (px (convert_RGB img) x y) as [[r g] b]. cbv zeta.
  unfold spec_keyed_pixel, spec_keyed_alpha. simpl.
  unfold WHITE_HIGH, WHITE_LOW in *.
  repeat split; intros HL.
  - destruct (Z.leb_spec 245 (Z.max (Z.max r g) b)); [done|lia].
  - destruct (Z.leb_spec 245 (Z.max (Z.max r g) b)); [lia|].
    destruct (Z.leb_spec (Z.max (Z.max r g) b) 220); [done|lia].
  - destruct (Z.leb_spec 245 (Z.max (Z.max r g) b)); [lia|].
    destruct (Z.leb_spec (Z.max (Z.max r g) b) 220); [lia|].
    rewrite Z.quot_div_nonneg; [done|nia|lia].
Qed.

Lemma keyer_alpha_rule_witness :
  exists keyed, key_data transition_band_image = Ok keyed /\
    forall x y, 0 <= x < 10 -> 0 <= y < 10 ->
      let '(r, g, b) := px (convert_RGB transition_band_image) x y in
      let a := (px (convert_RGBA transition_band_image) x y).2 in
      let L := Z.max (Z.max r g) b in
      let alpha := (px keyed x y).2 in
      (WHITE_HIGH <= L -> alpha = 0) /\
      (L <= WHITE_LOW -> alpha = a) /\
      (WHITE_LOW < L < WHITE_HIGH ->
         alpha = (a * (WHITE_HIGH - L)) ÷ (WHITE_HIGH - WHITE_LOW)).
Proof.
  apply (keyer_alpha_rule transition_band_image).
  intros x y _ _. simpl. lia.
Defined.

(** The transition-band pixel of the test-suite: whiteness 232 on an opaque
    pixel gives alpha 132, strictly between 0 and 255. *)
Example key_pixel_232 : key_pixel (232, 232, 232) 255 = Ok (232, 232, 232, 132).
Proof. vm_compute. reflexivity. Qed.

Example key_pixel_white : key_pixel (255, 255, 255) 255 = Ok (255, 255, 255, 0).
Proof. reflexivity. Qed.

Example key_pixel_low_threshold : key_pixel (220, 10, 10) 255 = Ok (220, 10, 10, 255).
Proof. reflexivity. Qed.

(** C7. With the same original alpha, the keyed alpha never grows with the
    whiteness [L = max(R, G, B)]: it is the original alpha up to 220, zero
    from 245 on, and non-increasing in between. *)
Theorem keyed_alpha_monotone (p1 p2 : pixel_rgb) (a : Z) :
  0 <= a <= 255 ->
  let L1 := Z.max (Z.max p1.1.1 p1.1.2) p1.2 in
  let L2 := Z.max (Z.max p2.1.1 p2.1.2) p2.2 in
  L1 <= L2 ->
  exists a1 a2,
    key_pixel p1 a = Ok (p1, a1) /\ key_pixel p2 a = Ok (p2, a2) /\
    a2 <= a1 /\
    (L1 <= WHITE_LOW -> a1 = a) /\
    (WHITE_HIGH <= L2 -> a2 = 0).
Proof.
  intros Ha L1 L2 HL.
  destruct p1 as [[r1 g1] b1], p2 as [[r2 g2] b2]. simpl in L1, L2.
  exists (spec_keyed_alpha L1 a), (spec_keyed_alpha L2 a).
  rewrite !key_pixel_spec by done. fold L1 L2.
  repeat split.
  - apply spec_keyed_alpha_mono; lia.
  - intros H. unfold spec_keyed_alpha, WHITE_HIGH, WHITE_LOW in *.
    destruct (Z.leb_spec 245 L1); [lia|].
    destruct (Z.leb_spec L1 220); [done|lia].
  - intros H. unfold spec_keyed_alpha, WHITE_HIGH in *.
    destruct (Z.leb_spec 245 L2); [done|lia].
Qed.

Lemma keyed_alpha_monotone_witness :
  exists a1 a2,
    key_pixel (225, 100, 30) 200 = Ok ((225, 100, 30), a1) /\
    key_pixel (90, 240, 240) 200 = Ok ((90, 240, 240), a2) /\
    a2 <= a1 /\
    (225 <= WHITE_LOW -> a1 = 200) /\
    (WHITE_HIGH <= 240 -> a2 = 0).
Proof.
  apply (keyed_alpha_monotone (225, 100, 30) (90, 240, 240) 200); simpl; lia.
Defined.

(** C6. Keying changes the alpha band only: at every pixel the R, G, B
    values of the output are those of the input, and the output alpha is the
    Gaussian blur of the keyed alpha band, merged with the untouched colour
    bands. *)
Theorem keying_preserves_rgb `{Pil} (img : AnyImage) :
  alpha_8bit img ->
  exists keyed out,
    key_data img = Ok keyed /\
    _remove_white_background img = Ok out /\
    width out = any_width img /\ height out = any_height img /\
    forall x y, 0 <= x < any_width img -> 0 <= y < any_height img ->
      (px out x y).1 = px (convert_RGB img) x y /\
      (px out x y).2 = px (gaussian_blur_L ALPHA_BLUR_RADIUS (band_A keyed)) x y.
Proof.
  intros H8. destruct (key_data_spec img H8) as (keyed & E & Hw & Hh & Hpx).
  unfold _remove_white_background. rewrite E. simpl.
  assert (Hsize : forall i j : Image Z,
            width i = width j -> height i = height j -> same_size i j = true).
  { intros i j Ew Eh. unfold same_size. rewrite Ew, Eh, !Z.eqb_refl. done. }
  destruct (gaussian_blur_L_size ALPHA_BLUR_RADIUS (band_A keyed)) as [Bw Bh].
  simpl in Bw, Bh. unfold merge_RGBA. rewrite !Hsize by (simpl; congruence). simpl.
  eexists _, _. split; [reflexivity|]. split; [reflexivity|].
  split; [done|]. split; [done|].
  intros x y Hx Hy. simpl. rewrite (Hpx x y Hx Hy).
  unfold spec_keyed_pixel. simpl.
  by destruct (px (convert_RGB img) x y) as [[r g] b].
Qed.

Lemma keying_preserves_rgb_witness :
  exists keyed out,
    key_data transition_band_image = Ok keyed /\
    _remove_white_background (H := reference_pil) transition_band_image = Ok out /\
    width out = 10 /\ height out = 10 /\
    forall x y, 0 <= x < 10 -> 0 <= y < 10 ->
      (px out x y).1 = px (convert_RGB transition_band_image) x y /\
      (px out x y).2 = px (box_blur ALPHA_BLUR_RADIUS (band_A keyed)) x y.
Proof.
  apply (keying_preserves_rgb (H := reference_pil) transition_band_image).
  intros x y _ _. simpl. lia.
Defined.

(** ** Sprite extractor *)

Lemma py_range_NUM_POSES : py_range NUM_POSES = [0; 1; 2; 3; 4].
Proof. reflexivity. Qed.

(** C3. A sheet of width [W >= 5] and height [H >= 1] gives exactly five
    frames, left to right: frames 0..3 are [W / 5] wide, the last one is
    [W - 4 * (W / 5)] wide, the widths add up to [W]; a smaller sheet fails
    with the sheet-too-small error. *)
Theorem crop_poses_frames {P} (sheet : Image P) :
  let W := width sheet in
  let H := height sheet in
  (NUM_POSES <= W -> 1 <= H ->
   exists poses, _crop_poses sheet = Ok poses /\
     length poses = 5%nat /\
     (forall (i : nat) p, poses !! i = Some p ->
        width p = (if (i <? 4)%nat then W / 5 else W - 4 * (W / 5)) /\
        height p = H /\
        forall x y, px p x y = px sheet (Z.of_nat i * (W / 5) + x) y) /\
     foldr Z.add 0 (width <$> poses) = W) /\
  (W < NUM_POSES \/ H < 1 ->
   _crop_poses sheet = Raise (ValueError (SheetTooSmall W H))).
Proof.
  intros W H. unfold _crop_poses. fold W H. split.
  - intros HW HH. rewrite py_range_NUM_POSES.
    destruct (Z.ltb_spec W NUM_POSES) as [?|_]; [lia|].
    destruct (Z.ltb_spec H 1) as [?|_]; [lia|]. simpl.
    eexists. split; [reflexivity|].
    split; [reflexivity|]. unfold NUM_POSES. split.
    + intros i p Hi.
      do 5 (destruct i as [|i]; [injection Hi as <-; simpl;
              split; [lia|]; split; [lia|]; intros x y; f_equal; lia|]).
      done.
    + simpl. lia.
  - intros [HW|HH].
    + by destruct (Z.ltb_spec W NUM_POSES) as [_|?]; [|lia].
    + destruct (Z.ltb_spec H 1) as [_|?]; [|lia]. by rewrite orb_true_r.
Qed.

Lemma crop_poses_frames_witness :
  (exists poses, _crop_poses (mkImage 103 50 (fun _ _ => (255, 255, 255))) = Ok poses /\
     length poses = 5%nat /\
     (forall (i : nat) p, poses !! i = Some p ->
        width p = (if (i <? 4)%nat then 103 / 5 else 103 - 4 * (103 / 5)) /\
        height p = 50 /\
        forall x y, px p x y = (255, 255, 255)) /\
     foldr Z.add 0 (width <$> poses) = 103) /\
  _crop_poses (mkImage 4 50 (fun _ _ => (255, 255, 255)))
    = Raise (ValueError (SheetTooSmall 4 50)).
Proof.
  split.
  - apply (crop_poses_frames (mkImage 103 50 (fun _ _ => (255, 255, 255)))); simpl;
      unfold NUM_POSES; lia.
  - apply (crop_poses_frames (mkImage 4 50 (fun _ _ => (255, 255, 255)))); simpl;
      unfold NUM_POSES; lia.
Defined.

(** The sheet of the test-suite: 100 x 50 gives five frames of 20 x 50. *)
Example crop_poses_100x50 :
  match _crop_poses (mkImage 100 50 (fun _ _ => (255, 255, 255))) with
  | Ok ps => (fun p : Image pixel_rgb => (width p, height p)) <$> ps
  | Raise _ => []
  end = [(20, 50); (20, 50); (20, 50); (20, 50); (20, 50)].
Proof. reflexivity. Qed.

(** ** Ground anchor locator *)

(** Scanning [range(n - 1, -1, -1)] for the first hit finds the largest one. *)
Lemma find_reverse_range (f : Z -> bool) (n : nat) :
  match find f (reverse (py_range (Z.of_nat n))) with
  | Some y => 0 <= y < Z.of_nat n /\ f y = true /\
              forall y', y < y' < Z.of_nat n -> f y' = false
  | None => forall y', 0 <= y' < Z.of_nat n -> f y' = false
  end.
Proof.
  unfold py_range. induction n as [|n IH].
  - simpl. intros y' Hy'. lia.
  - rewrite seqZ_S, reverse_app, Z.add_0_l. simpl.
    destruct (f (Z.of_nat n)) eqn:Hf.
    + split; [lia|]. split; [done|]. intros y' Hy'. lia.
    + destruct (find f (reverse (seqZ 0 (Z.of_nat n)))) as [y|].
      * destruct IH as (Hy & Hfy & Hmax). split; [lia|]. split; [done|].
        intros y' Hy'. destruct (decide (y' = Z.of_nat n)) as [->|]; [done|].
        apply Hmax. lia.
      * intros y' Hy'. destruct (decide (y' = Z.of_nat n)) as [->|]; [done|].
        apply IH. lia.
Qed.

Lemma existsb_py_range (f : Z -> bool) (n : Z) :
  existsb f (py_range n) = true <-> exists x, 0 <= x < n /\ f x = true.
Proof.
  rewrite existsb_exists. split.
  - intros (x & Hin%list_elem_of_In%elem_of_py_range & Hf). eauto.
  - intros (x & Hx & Hf). exists x. split; [|done].
    by apply list_elem_of_In, elem_of_py_range.
Qed.

Lemma lowest_opaque_row_cases (pose : Image pixel_rgba) :
  let w := width pose in
  let h := height pose in
  let r := _lowest_opaque_row pose in
  (0 <= r < h /\ (exists x, 0 <= x < w /\ opaque_at pose x r) /\
   forall x y, 0 <= x < w -> r < y < h -> ~ opaque_at pose x y) \/
  (r = h /\ forall x y, 0 <= x < w -> 0 <= y < h -> ~ opaque_at pose x y).
Proof.
  intros w h r. subst r. unfold _lowest_opaque_row. fold w h. cbv zeta.
  set (f := fun y => existsb _ (py_range w)).
  assert (Hf : forall y, f y = true <-> exists x, 0 <= x < w /\ opaque_at pose x y).
  { intros y. unfold f. rewrite existsb_py_range. unfold opaque_at. simpl.
    split; intros (x & Hx & Ho); exists x; (split; [done|]); lia. }
  assert (Hn : forall y, f y = false -> forall x, 0 <= x < w -> ~ opaque_at pose x y).
  { intros y Hy x Hx Ho. assert (f y = true) by (apply Hf; eauto). congruence. }
  destruct (Z.le_gt_cases 0 h) as [Hh|Hh].
  - pose proof (find_reverse_range f (Z.to_nat h)) as F.
    rewrite Z2Nat.id in F by done.
    destruct (find f (reverse (py_range h))) as [y|]; simpl.
    + left. destruct F as (Hy & Hfy & Hmax). split; [done|].
      split; [by apply Hf|]. intros x y' Hx Hy'. apply Hn; [|done]. by apply Hmax.
    + right. split; [done|]. intros x y Hx Hy. apply Hn; [|done]. by apply F.
  - right. unfold py_range. rewrite seqZ_nil by lia. simpl. split; [done|]. lia.
Qed.

(** C4. The locator returns the largest row index containing a pixel of
    alpha at least 10, and the image height when no pixel reaches that
    alpha; on a height-30 image opaque exactly in rows 10..20 it returns 20. *)
Theorem lowest_opaque_row_spec (pose : Image pixel_rgba) :
  let w := width pose in
  let h := height pose in
  let r := _lowest_opaque_row pose in
  ((exists x y, 0 <= x < w /\ 0 <= y < h /\ opaque_at pose x y) ->
     0 <= r < h /\ (exists x, 0 <= x < w /\ opaque_at pose x r) /\
     forall x y, 0 <= x < w -> 0 <= y < h -> opaque_at pose x y -> y <= r) /\
  ((forall x y, 0 <= x < w -> 0 <= y < h -> ~ opaque_at pose x y) -> r = h) /\
  (h = 30 -> 1 <= w ->
     (forall x y, 0 <= x < w -> 0 <= y < h -> opaque_at pose x y <-> 10 <= y <= 20) ->
     r = 20).
Proof.
  intros w h r.
  destruct (lowest_opaque_row_cases pose) as [(Hr & (x0 & Hx0 & Ho) & Hmax)|(Hr & Hnone)].
  - split; [|split].
    + intros _. split; [done|]. split; [by exists x0|].
      intros x y Hx Hy Hop. destruct (Z.le_gt_cases y r) as [|Hlt]; [done|].
      exfalso. apply (Hmax x y); [done|lia|done].
    + intros Hnone. exfalso. apply (Hnone x0 r); done.
    + intros Hh Hw Hrows.
      assert (10 <= r <= 20) by (apply (Hrows x0 r); [done|lia|done]).
      destruct (Z.le_gt_cases 20 r) as [|Hlt]; [lia|].
      exfalso. apply (Hmax 0 20); [lia|lia|]. apply Hrows; lia.
  - split; [|split].
    + intros (x & y & Hx & Hy & Hop). exfalso. by apply (Hnone x y).
    + done.
    + intros Hh Hw Hrows. exfalso. apply (Hnone 0 10); [lia|lia|].
      apply Hrows; lia.
Qed.

Lemma lowest_opaque_row_spec_witness :
  (0 <= 20 < 30 /\ (exists x, 0 <= x < 20 /\ opaque_at feet_test_image x 20) /\
   forall x y, 0 <= x < 20 -> 0 <= y < 30 -> opaque_at feet_test_image x y -> y <= 20) /\
  _lowest_opaque_row (image_new (20, 30) (255, 0, 0, 0)) = 30 /\
  _lowest_opaque_row feet_test_image = 20.
Proof.
  split; [|split].
  - apply (lowest_opaque_row_spec feet_test_image).
    exists 0, 10. unfold opaque_at, FEET_ALPHA_THRESHOLD. simpl. lia.
  - apply (lowest_opaque_row_spec (image_new (20, 30) (255, 0, 0, 0))).
    intros x y _ _. unfold opaque_at, FEET_ALPHA_THRESHOLD. simpl. lia.
  - apply (lowest_opaque_row_spec feet_test_image); [reflexivity|simpl; lia|].
    intros x y _ Hy. unfold opaque_at, FEET_ALPHA_THRESHOLD. simpl in *.
    destruct (Z.leb_spec 10 y), (Z.leb_spec y 20); simpl; lia.
Defined.

(** The image of the test-suite, evaluated. *)
Example lowest_opaque_row_test : _lowest_opaque_row feet_test_image = 20.
Proof. vm_compute. reflexivity. Qed.

(** ** Binary64 operations on small numbers stay finite *)

Lemma fexp_eq (e : Z) : fexp Float64.prec Float64.emax e = Z.max (e - 53) (-1074).
Proof. reflexivity. Qed.

Lemma digits2_pos_bounds (m : positive) :
  2 ^ (Z.pos (digits2_pos m) - 1) <= Z.pos m < 2 ^ Z.pos (digits2_pos m).
Proof.
  induction m as [m IH|m IH|]; simpl digits2_pos.
  - rewrite Pos2Z.inj_succ.
    replace (Z.succ (Z.pos (digits2_pos m)) - 1) with (Z.succ (Z.pos (digits2_pos m) - 1)) by lia.
    rewrite !Z.pow_succ_r by lia. lia.
  - rewrite Pos2Z.inj_succ.
    replace (Z.succ (Z.pos (digits2_pos m)) - 1) with (Z.succ (Z.pos (digits2_pos m) - 1)) by lia.
    rewrite !Z.pow_succ_r by lia. lia.
  - simpl. lia.
Qed.

Lemma Zdigits2_nonneg (m : Z) : 0 <= Zdigits2 m.
Proof. destruct m; simpl; lia. Qed.

Lemma Zdigits2_bounds (m : Z) :
  0 < m -> 2 ^ (Zdigits2 m - 1) <= m < 2 ^ Zdigits2 m.
Proof. destruct m; try lia. intros _. apply digits2_pos_bounds. Qed.

(** [m < 2 ^ k] bounds the number of digits by [k]. *)
Lemma Zdigits2_le (m k : Z) : 0 <= m < 2 ^ k -> 0 <= k -> Zdigits2 m <= k.
Proof.
  intros [Hm Hk] Hk0. destruct (Z.eq_dec m 0) as [->|Hne]; [simpl; lia|].
  destruct (Zdigits2_bounds m ltac:(lia)) as [Hlo _].
  destruct (Z.le_gt_cases (Zdigits2 m) k) as [|Hgt]; [done|].
  assert (2 ^ k <= 2 ^ (Zdigits2 m - 1)) by (apply Z.pow_le_mono_r; lia).
  lia.
Qed.

Lemma Zdigits2_lt_pow (m : Z) : 0 <= m -> m < 2 ^ Zdigits2 m.
Proof.
  intros Hm. destruct (Z.eq_dec m 0) as [->|Hne]; [simpl; lia|].
  apply Zdigits2_bounds. lia.
Qed.

Lemma Zdigits2_mul (a b : Z) :
  0 <= a -> 0 <= b -> Zdigits2 (a * b) <= Zdigits2 a + Zdigits2 b.
Proof.
  intros Ha Hb. apply Zdigits2_le.
  - split; [lia|]. rewrite Z.pow_add_r by apply Zdigits2_nonneg.
    pose proof (Zdigits2_lt_pow a Ha). pose proof (Zdigits2_lt_pow b Hb). nia.
  - pose proof (Zdigits2_nonneg a). pose proof (Zdigits2_nonneg b). lia.
Qed.

Lemma Zdigits2_succ (m : Z) : 0 <= m -> Zdigits2 (m + 1) <= Zdigits2 m + 1.
Proof.
  intros Hm. apply Zdigits2_le; [|pose proof (Zdigits2_nonneg m); lia].
  split; [lia|]. rewrite Z.pow_add_r by (try apply Zdigits2_nonneg; lia).
  pose proof (Zdigits2_lt_pow m Hm). lia.
Qed.

Lemma Zdigits2_div_pow (m n : Z) :
  0 <= m -> 0 <= n -> Zdigits2 (m / 2 ^ n) <= Z.max (Zdigits2 m - n) 0.
Proof.
  intros Hm Hn. pose proof (Zdigits2_lt_pow m Hm) as Hlt.
  assert (0 < 2 ^ n) by (apply Z.pow_pos_nonneg; lia).
  destruct (Z.le_gt_cases n (Zdigits2 m)) as [Hle|Hgt].
  - apply Zdigits2_le; [|lia]. split; [apply Z.div_pos; lia|].
    replace (Z.max (Zdigits2 m - n) 0) with (Zdigits2 m - n) by lia.
    apply Z.div_lt_upper_bound; [lia|].
    rewrite <- Z.pow_add_r by lia. replace (n + (Zdigits2 m - n)) with (Zdigits2 m) by lia.
    done.
  - rewrite Z.div_small; [simpl; lia|]. split; [done|].
    assert (2 ^ Zdigits2 m <= 2 ^ n) by (apply Z.pow_le_mono_r; lia). lia.
Qed.

Lemma Zdigits2_mono (a b : Z) : 0 <= a <= b -> Zdigits2 a <= Zdigits2 b.
Proof.
  intros [Ha Hab]. apply Zdigits2_le; [|apply Zdigits2_nonneg].
  split; [done|]. pose proof (Zdigits2_lt_pow b ltac:(lia)). lia.
Qed.

Lemma shr_1_m (mrs : shr_record) :
  0 <= shr_m mrs -> shr_m (shr_1 mrs) = shr_m mrs / 2.
Proof.
  destruct mrs as [m r s]. simpl. intros Hm.
  destruct m as [|p|p]; try lia; [done|].
  destruct p as [p|p|]; simpl shr_m.
  - rewrite Pos2Z.inj_xI. apply Z.div_unique with 1; lia.
  - rewrite Pos2Z.inj_xO. apply Z.div_unique with 0; lia.
  - done.
Qed.

Lemma iter_pos_shr_m (p : positive) (mrs : shr_record) :
  0 <= shr_m mrs ->
  shr_m (SpecFloat.iter_pos shr_1 p mrs) = shr_m mrs / 2 ^ Z.pos p.
Proof.
  revert mrs. induction p as [p IH|p IH|]; intros mrs Hm; simpl SpecFloat.iter_pos.
  - assert (H1 : 0 <= shr_m (shr_1 mrs)) by (rewrite shr_1_m by done; apply Z.div_pos; lia).
    assert (0 < 2 ^ Z.pos p) by (apply Z.pow_pos_nonneg; lia).
    assert (H2 : 0 <= shr_m (SpecFloat.iter_pos shr_1 p (shr_1 mrs)))
      by (rewrite IH by done; apply Z.div_pos; lia).
    rewrite IH, IH, shr_1_m by done.
    rewrite !Z.div_div by lia. f_equal.
    replace (Z.pos p~1) with (1 + Z.pos p + Z.pos p) by lia.
    rewrite !Z.pow_add_r by lia. lia.
  - assert (0 < 2 ^ Z.pos p) by (apply Z.pow_pos_nonneg; lia).
    assert (H2 : 0 <= shr_m (SpecFloat.iter_pos shr_1 p mrs))
      by (rewrite IH by done; apply Z.div_pos; lia).
    rewrite IH, IH by done.
    rewrite !Z.div_div by lia. f_equal.
    replace (Z.pos p~0) with (Z.pos p + Z.pos p) by lia.
    rewrite !Z.pow_add_r by lia. lia.
  - rewrite shr_1_m by done. done.
Qed.

Lemma shr_m_of_loc (m : Z) (l : location) : shr_m (shr_record_of_loc m l) = m.
Proof. by destruct l as [|[]]. Qed.

Lemma shr_fexp_spec (m e : Z) (l : location) :
  0 <= m ->
  let n := Z.max 0 (fexp Float64.prec Float64.emax (Zdigits2 m + e) - e) in
  shr_m (shr_fexp Float64.prec Float64.emax m e l).1 = m / 2 ^ n /\
  (shr_fexp Float64.prec Float64.emax m e l).2 = e + n.
Proof.
  intros Hm n. unfold shr_fexp, shr. subst n.
  destruct (fexp Float64.prec Float64.emax (Zdigits2 m + e) - e) as [|p|p] eqn:E; simpl.
  - rewrite shr_m_of_loc, Z.div_1_r. lia.
  - rewrite iter_pos_shr_m by (rewrite shr_m_of_loc; lia).
    rewrite shr_m_of_loc. done.
  - rewrite shr_m_of_loc, Z.div_1_r. lia.
Qed.

Lemma round_nearest_even_bounds (m : Z) (l : location) :
  m <= round_nearest_even m l <= m + 1.
Proof. destruct l as [|[]]; simpl; try destruct (Z.even m); lia. Qed.

Lemma binary_round_aux_within (sx : bool) (mx ex : Z) (lx : location) (M E : Z) :
  0 <= mx -> Zdigits2 mx + ex <= M -> ex <= E -> E <= M ->
  -1074 <= E <= 971 -> M <= 1023 ->
  within (binary_round_aux Float64.prec Float64.emax sx mx ex lx) sx (M + 1) (Z.max E (M - 52)).
Proof.
  intros Hmx Hd He HEM HE HM. unfold binary_round_aux.
  destruct (shr_fexp_spec mx ex lx Hmx) as [Hm1 He1].
  destruct (shr_fexp Float64.prec Float64.emax mx ex lx) as [mrs1 e1]. simpl in Hm1, He1.
  remember (Z.max 0 (fexp Float64.prec Float64.emax (Zdigits2 mx + ex) - ex)) as n1 eqn:Hn1.
  set (m2 := round_nearest_even (shr_m mrs1) (loc_of_shr_record mrs1)).
  assert (0 < 2 ^ n1) by (apply Z.pow_pos_nonneg; lia).
  assert (Hm1' : 0 <= shr_m mrs1) by (rewrite Hm1; apply Z.div_pos; lia).
  pose proof (round_nearest_even_bounds (shr_m mrs1) (loc_of_shr_record mrs1)) as Hr.
  fold m2 in Hr.
  assert (Hm2 : 0 <= m2) by lia.
  destruct (shr_fexp_spec m2 e1 loc_Exact Hm2) as [Hm3 He2].
  destruct (shr_fexp Float64.prec Float64.emax m2 e1 loc_Exact) as [mrs2 e2]. simpl in Hm3, He2.
  remember (Z.max 0 (fexp Float64.prec Float64.emax (Zdigits2 m2 + e1) - e1)) as n2 eqn:Hn2.
  assert (0 < 2 ^ n2) by (apply Z.pow_pos_nonneg; lia).
  (* digits *)
  pose proof (Zdigits2_div_pow mx n1 Hmx ltac:(lia)) as Hd1. rewrite <- Hm1 in Hd1.
  assert (Hd2 : Zdigits2 m2 <= Zdigits2 (shr_m mrs1) + 1).
  { etransitivity; [apply (Zdigits2_mono m2 (shr_m mrs1 + 1)); lia|].
    by apply Zdigits2_succ. }
  pose proof (Zdigits2_div_pow m2 n2 Hm2 ltac:(lia)) as Hd3. rewrite <- Hm3 in Hd3.
  pose proof (Zdigits2_nonneg mx). pose proof (Zdigits2_nonneg m2).
  pose proof (Zdigits2_nonneg (shr_m mrs1)).
  rewrite fexp_eq in Hn1, Hn2.
  assert (Hm3' : 0 <= shr_m mrs2) by (rewrite Hm3; apply Z.div_pos; lia).
  destruct (shr_m mrs2) as [|m3|m3] eqn:Em3; [done| |lia].
  assert (He2' : e2 <= 971 /\ Zdigits2 (Z.pos m3) + e2 <= M + 1 /\ e2 <= Z.max E (M - 52)).
  { clear - Hd He HEM HE HM Hn1 He1 Hn2 He2 Hd1 Hd2 Hd3 H1 H2 H3. lia. }
  destruct He2' as (He2' & Hout1 & Hout2).
  destruct (Z.leb_spec e2 (Float64.emax - Float64.prec)) as [_|Hbad]; [|unfold Float64.emax, Float64.prec in Hbad; lia].
  split; [done|]. done.
Qed.

Lemma pos_iter_xO (m d : positive) : Z.pos (Pos.iter xO m d) = Z.pos m * 2 ^ Z.pos d.
Proof.
  rewrite (Pos.iter_swap_gen _ _ Z.pos xO (Z.mul 2)) by done.
  change (Pos.iter (Z.mul 2) (Z.pos m) d) with (Z.shiftl (Z.pos m) (Z.pos d)).
  apply Z.shiftl_mul_pow2. lia.
Qed.

Lemma shl_align_spec (mx : positive) (ex ex' : Z) :
  let '(mz, ez) := shl_align mx ex ex' in
  ez <= ex /\ Z.pos mz = Z.pos mx * 2 ^ (ex - ez).
Proof.
  unfold shl_align. destruct (ex' - ex) as [|d|d] eqn:E.
  - rewrite Z.sub_diag. simpl. lia.
  - rewrite Z.sub_diag. simpl. lia.
  - split; [lia|]. rewrite pos_iter_xO. f_equal. f_equal. lia.
Qed.

(** [float(n)] for [0 <= n < 2 ^ k]. *)
Lemma binary_normalize_within (n k : Z) :
  0 <= n < 2 ^ k -> 0 <= k <= 1023 ->
  within (binary_normalize Float64.prec Float64.emax n 0 false) false (k + 1) (Z.max 0 (k - 52)).
Proof.
  intros [Hn Hk] Hk0. destruct n as [|m|m]; [done| |lia].
  unfold binary_normalize, binary_round.
  pose proof (shl_align_spec m 0 (fexp Float64.prec Float64.emax (Z.pos (digits2_pos m) + 0))) as Hs.
  destruct (shl_align m 0 _) as [mz ez]. destruct Hs as [Hez Hmz].
  apply binary_round_aux_within; try lia.
  assert (Zdigits2 (Z.pos mz) <= Zdigits2 (Z.pos m) + (0 - ez)).
  { apply Zdigits2_le; [|pose proof (Zdigits2_nonneg (Z.pos m)); lia].
    split; [lia|]. rewrite Hmz, Z.pow_add_r by (try apply Zdigits2_nonneg; lia).
    pose proof (Zdigits2_lt_pow (Z.pos m) ltac:(lia)).
    assert (0 < 2 ^ (0 - ez)) by (apply Z.pow_pos_nonneg; lia). nia. }
  assert (Zdigits2 (Z.pos m) <= k) by (apply Zdigits2_le; lia).
  lia.
Qed.

Lemma SFmul_within (x y : spec_float) (sx sy : bool) (Kx Ex Ky Ey M E : Z) :
  within x sx Kx Ex -> within y sy Ky Ey ->
  Kx + Ky <= M -> Ex + Ey <= E -> E <= M -> -1074 <= E <= 971 -> M <= 1023 ->
  within (SFmul Float64.prec Float64.emax x y) (xorb sx sy) (M + 1) (Z.max E (M - 52)).
Proof.
  intros Hx Hy HK HE HEM HE' HM.
  destruct x as [sx'|sx'| |sx' mx ex], y as [sy'|sy'| |sy' my ey];
    unfold within in Hx, Hy; try done.
  - destruct Hx as (-> & Hdx & Hex), Hy as (-> & Hdy & Hey).
    unfold SFmul. apply binary_round_aux_within; try lia.
    rewrite Pos2Z.inj_mul.
    pose proof (Zdigits2_mul (Z.pos mx) (Z.pos my) ltac:(lia) ltac:(lia)) as Hd.
    lia.
Qed.

(** [a / b] for [0 <= a < 2 ^ k] and [0 < b]. *)
Lemma SFdiv_within (a b k : Z) :
  0 <= a < 2 ^ k -> 0 < b -> 0 <= k <= 1023 ->
  within (SFdiv Float64.prec Float64.emax (Float64.exact a) (Float64.exact b))
    false (k + 1) (Z.max 0 (k - 52)).
Proof.
  intros [Ha Hk] Hb Hk0.
  destruct b as [|pb|pb]; try lia. destruct a as [|pa|pa]; try lia; [done|].
  unfold Float64.exact, SFdiv, SFdiv_core_binary. cbn [xorb].
  set (d1 := Zdigits2 (Z.pos pa)). set (d2 := Zdigits2 (Z.pos pb)).
  remember (Z.min (fexp Float64.prec Float64.emax (d1 + 0 - (d2 + 0))) (0 - 0)) as e' eqn:He'.
  remember (0 - 0 - e') as s eqn:Hs.
  assert (He0 : e' <= 0) by lia.
  assert (Hs0 : 0 <= s) by lia.
  set (m' := match s with
             | 0 => Z.pos pa
             | Z.pos _ => Z.shiftl (Z.pos pa) s
             | Z.neg _ => 0
             end).
  assert (Hm' : m' = Z.pos pa * 2 ^ s).
  { unfold m'. destruct s; [simpl; lia| |lia]. apply Z.shiftl_mul_pow2. lia. }
  pose proof (Z_div_mod m' (Z.pos pb) ltac:(lia)) as Hdiv.
  destruct (Z.div_eucl m' (Z.pos pb)) as [q r]. destruct Hdiv as [Hq Hr].
  assert (0 < 2 ^ s) by (apply Z.pow_pos_nonneg; lia).
  assert (Hq0 : 0 <= q) by nia.
  assert (Hqm : q <= m') by nia.
  apply binary_round_aux_within; try lia.
  assert (Zdigits2 q <= d1 + s).
  { etransitivity; [apply (Zdigits2_mono q m'); lia|].
    apply Zdigits2_le; [|unfold d1; pose proof (Zdigits2_nonneg (Z.pos pa)); lia].
    split; [lia|]. rewrite Hm', Z.pow_add_r by (try apply Zdigits2_nonneg; lia).
    pose proof (Zdigits2_lt_pow (Z.pos pa) ltac:(lia)) as Hpa. fold d1 in Hpa. nia. }
  assert (d1 <= k) by (apply Zdigits2_le; lia).
  lia.
Qed.

Lemma within_is_finite (x : Float64.float) (s : bool) (K E : Z) :
  within x s K E -> Float64.is_finite x = true.
Proof. by destruct x. Qed.

Lemma of_int_ok (n k : Z) :
  0 <= n < 2 ^ k -> 0 <= k <= 1023 ->
  exists x, Float64.of_int n = Ok x /\ within x false (k + 1) (Z.max 0 (k - 52)).
Proof.
  intros Hn Hk. pose proof (binary_normalize_within n k Hn Hk) as Hw.
  unfold Float64.of_int. rewrite (within_is_finite _ _ _ _ Hw). eauto.
Qed.

Lemma truediv_ok (a b k : Z) :
  0 <= a < 2 ^ k -> 0 < b -> 0 <= k <= 1023 ->
  exists q, Float64.truediv a b = Ok q /\ within q false (k + 1) (Z.max 0 (k - 52)).
Proof.
  intros Ha Hb Hk. pose proof (SFdiv_within a b k Ha Hb Hk) as Hw.
  unfold Float64.truediv. destruct (Z.eqb_spec b 0) as [?|_]; [lia|].
  rewrite (within_is_finite _ _ _ _ Hw). eauto.
Qed.

(** A float that passed the check [0 <= x <= 1] of the validator. *)
Lemma in_0_1_within (x : Float64.float) :
  in_0_1 (NFloat x) = true -> within x false 1 0.
Proof.
  unfold in_0_1, num_le, num_compare. intros [H0 H1]%andb_true_iff.
  destruct x as [s|s| |s m e]; unfold within.
  - done.
  - simpl in H0, H1. destruct s; discriminate.
  - simpl in H0. discriminate.
  - unfold Float64.compare_int in H0, H1. cbn [fmap option_fmap option_map] in H0.
    assert (Hpow : forall k, 0 <= k -> 0 < 2 ^ k) by (intros; apply Z.pow_pos_nonneg; lia).
    destruct s.
    + exfalso. destruct e as [|p|p].
      * rewrite (proj2 (Z.compare_lt_iff (Z.neg m * 2 ^ 0) 0)) in H0 by (simpl; lia).
        discriminate.
      * pose proof (Hpow (Z.pos p) ltac:(lia)).
        rewrite (proj2 (Z.compare_lt_iff (Z.neg m * 2 ^ Z.pos p) 0)) in H0 by nia.
        discriminate.
      * rewrite (proj2 (Z.compare_lt_iff (Z.neg m) (0 * Z.pow_pos 2 p))) in H0 by lia.
        discriminate.
    + split; [done|]. destruct e as [|p|p].
      * destruct (Z.compare_spec (Z.pos m * 2 ^ 0) 1) as [E|E|E]; try discriminate;
          assert (m = 1%positive) as -> by lia; simpl; lia.
      * exfalso. pose proof (Hpow (Z.pos p) ltac:(lia)).
        assert (2 <= 2 ^ Z.pos p) by (apply (Z.pow_le_mono_r 2 1); lia).
        destruct (Z.compare_spec (Z.pos m * 2 ^ Z.pos p) 1); try discriminate; nia.
      * rewrite Z.pow_pos_fold in H1.
        assert (Z.pos m <= 2 ^ Z.pos p)
          by (destruct (Z.compare_spec (Z.pos m) (1 * 2 ^ Z.pos p)); try discriminate; lia).
        assert (Zdigits2 (Z.pos m) <= Z.pos p + 1); [|lia].
        apply Zdigits2_le; [|lia]. rewrite Z.pow_add_r by lia. lia.
Qed.

(** ** Truncation *)

(** [int(x)] of a finite [x] is its truncation. *)
Lemma to_int_truncates (x : Float64.float) :
  Float64.is_finite x = true -> Float64.to_int x = Ok (truncation x).
Proof.
  destruct x as [s0|s0| |s m e]; try discriminate; intros _; [done|].
  unfold Float64.to_int, truncation. f_equal. destruct e as [|p|p].
  - simpl. rewrite Z.mul_1_r, Z.quot_1_r. by destruct s.
  - rewrite Z.shiftl_mul_pow2 by lia.
    replace (Z.max (- Z.pos p) 0) with 0 by lia.
    replace (Z.max (Z.pos p) 0) with (Z.pos p) by lia.
    rewrite Z.quot_1_r. destruct s; lia.
  - rewrite Z.shiftr_div_pow2 by lia.
    replace (Z.max (Z.neg p) 0) with 0 by lia.
    replace (Z.max (- Z.neg p) 0) with (Z.pos p) by lia.
    rewrite Z.mul_1_r.
    assert (0 < 2 ^ Z.pos p) by (apply Z.pow_pos_nonneg; lia).
    destruct s.
    + change (Z.neg m) with (- Z.pos m). rewrite Z.quot_opp_l by lia.
      rewrite Z.quot_div_nonneg by lia. done.
    + rewrite Z.quot_div_nonneg by lia. done.
Qed.

Lemma truncation_nonneg (x : Float64.float) (K E : Z) :
  within x false K E -> 0 <= truncation x.
Proof.
  destruct x as [s|s| |s m e]; simpl; try done; try lia.
  intros (-> & _ & _). apply Z.quot_pos.
  - apply Z.mul_nonneg_nonneg; [lia|]. apply Z.pow_nonneg. lia.
  - apply Z.pow_pos_nonneg; lia.
Qed.

(** ** Feet row after a resize *)

(** C5, as the specification states it, fails: a feet row 1 in a pose of
    height 4 scaled to height 3 becomes [int(1 * (3 / 4)) = int(0.75) = 0],
    where rounding [0.75] to the nearest integer gives 1. *)
Lemma feet_row_scaled_not_rounded :
  feet_row_scaled 1 4 3 = Ok 0 /\
  round_div (1 * 3) 4 = 1 /\
  feet_row_scaled 1 4 3 <> Ok (round_div (1 * 3) 4).
Proof. vm_compute. repeat split; congruence. Qed.

(** C5, amended.  For an original height above zero the scaled feet row is
    [int(feet_row_orig * (scaled_height / orig_height))]: the binary64
    quotient, times the feet row in binary64, with the fractional part
    dropped (not rounded to the nearest integer); for a feet row and
    heights from 0 up to [2 ^ 31] the computation raises nothing and the
    row is not negative.  For an original height of zero the scaled feet
    row is the scaled height. *)
Theorem feet_row_scaled_truncated (feet_row_orig orig_h scaled_h : Z) :
  (0 < orig_h -> 0 <= feet_row_orig < 2 ^ 31 -> 0 <= scaled_h < 2 ^ 31 ->
   exists ratio p,
     Float64.truediv scaled_h orig_h = Ok ratio /\
     Float64.int_mul feet_row_orig ratio = Ok p /\
     feet_row_scaled feet_row_orig orig_h scaled_h = Ok (truncation p) /\
     0 <= truncation p) /\
  (orig_h = 0 -> feet_row_scaled feet_row_orig orig_h scaled_h = Ok scaled_h).
Proof.
  unfold feet_row_scaled. split.
  - intros Hh Hfeet Hscaled.
    destruct (truediv_ok scaled_h orig_h 31) as (ratio & Er & Wr); try lia.
    destruct (of_int_ok feet_row_orig 31) as (f & Ef & Wf); try lia.
    assert (Wp : within (Float64.mul f ratio) false 65 (Z.max 0 (64 - 52))).
    { apply (SFmul_within f ratio false false 32 0 32 0 64 0); try done; lia. }
    exists ratio, (Float64.mul f ratio).
    assert (Ep : Float64.int_mul feet_row_orig ratio = Ok (Float64.mul f ratio))
      by (unfold Float64.int_mul; by rewrite Ef).
    destruct (Z.ltb_spec 0 orig_h); [|lia].
    rewrite Er. simpl. rewrite Ep. simpl.
    rewrite (to_int_truncates _ (within_is_finite _ _ _ _ Wp)).
    repeat split; try done. by apply (truncation_nonneg _ _ _ Wp).
  - by intros ->.
Qed.

Lemma feet_row_scaled_truncated_witness :
  (exists ratio p,
     Float64.truediv 30 50 = Ok ratio /\
     Float64.int_mul 29 ratio = Ok p /\
     feet_row_scaled 29 50 30 = Ok (truncation p) /\
     0 <= truncation p) /\
  feet_row_scaled 7 0 30 = Ok 30.
Proof.
  split.
  - apply (feet_row_scaled_truncated 29 50 30); lia.
  - apply (feet_row_scaled_truncated 7 0 30). reflexivity.
Defined.

(** The feet row of the alignment test: row 29 of 50, scaled to 30 rows. *)
Example feet_row_scaled_29 : feet_row_scaled 29 50 30 = Ok 17.
Proof. vm_compute. reflexivity. Qed.

(** The quotient and the product are binary64 ones: [1 / 49] is rounded, and
    49 times it is just below 1, so a feet row 49 of 49 rows scaled to one
    row becomes 0. *)
Example feet_row_scaled_49 : feet_row_scaled 49 49 1 = Ok 0.
Proof. vm_compute. reflexivity. Qed.

(** ** Scaling *)

(** The scaled pose is as high as [max(1, int(scale * bg_height))]. *)
Lemma resize_pose_height `{Pil} (pose : Image pixel_rgba) (bg_width bg_height : Z)
    (scale : number) (out : Image pixel_rgba) :
  _resize_pose pose bg_width bg_height scale = Ok out ->
  exists h_scaled,
    num_mul scale (NInt bg_height) ≫= num_int = Ok h_scaled /\
    height out = Z.max 1 h_scaled /\ 1 <= width out.
Proof.
  unfold _resize_pose. intros E.
  destruct (num_mul scale (NInt bg_height)) as [scaled|]; simpl in *; [|discriminate].
  destruct (num_int scaled) as [h_scaled|]; simpl in *; [|discriminate].
  exists h_scaled. split; [done|].
  destruct (Float64.truediv _ _) as [ratio|]; simpl in *; [|discriminate].
  destruct (Float64.int_mul _ ratio) as [p|]; simpl in *; [|discriminate].
  destruct (Float64.to_int p) as [w_scaled|]; simpl in *; [|discriminate].
  destruct (resize_lanczos_size pose (Z.max 1 w_scaled, Z.max 1 h_scaled) out E) as [-> ->].
  simpl. lia.
Qed.

(** The resize of the test-suite: a 20 x 50 pose at scale 0.35 on a
    200 x 100 background becomes 14 x 35. *)
Example resize_pose_test :
  match _resize_pose (H := reference_pil) (image_new (20, 50) (255, 0, 0, 255))
          200 100 (NFloat (Float64.literal 35 100)) with
  | Ok out => Some (width out, height out)
  | Raise _ => None
  end = Some (14, 35).
Proof. vm_compute. reflexivity. Qed.

(** ** Placement *)

(** C2, as the specification states it, fails: on a canvas 5 wide the
    fraction 0.75 gives the column [int(3.75) = 3], where rounding [3.75] to
    the nearest integer gives 4. *)
Lemma canvas_target_not_rounded :
  canvas_target lit_0_75 lit_0_5 5 100 = Ok (3, 50) /\
  round_product lit_0_75 5 = Some 4 /\
  round_product lit_0_5 100 = Some 50 /\
  paste_origin (20, 30) lit_0_75 lit_0_5 5 100 29 <> Ok (4 - 20 / 2, 50 - 29).
Proof. vm_compute. repeat split; congruence. Qed.

(** The product is a binary64 one: [0.7] is a little below 7/10, and ten
    times it rounds to 7.0, so the column is 7. *)
Example scale_to_pixels_0_7 : scale_to_pixels (Float64.literal 7 10) 10 = Ok 7.
Proof. vm_compute. reflexivity. Qed.

(** C2, amended.  For fractions in [0, 1] and a background below
    [2 ^ 31] in each dimension, the target point is
    [(int(x_frac * bg_width), int(y_frac * bg_height))], each product taken
    in binary64 and its fractional part dropped (not rounded to the nearest
    integer); computing it raises nothing and neither coordinate is
    negative.  The paste origin is the target minus the anchor
    [(pw // 2, feet_row)], so that the anchor lands on the target. *)
Theorem paste_origin_truncated (pw ph : Z) (x_frac y_frac : Float64.float)
    (bg_width bg_height feet_row : Z) :
  in_0_1 (NFloat x_frac) = true ->
  in_0_1 (NFloat y_frac) = true ->
  0 <= bg_width < 2 ^ 31 ->
  0 <= bg_height < 2 ^ 31 ->
  exists fx fy cx cy paste_x paste_y,
    Float64.mul_int x_frac bg_width = Ok fx /\
    Float64.mul_int y_frac bg_height = Ok fy /\
    cx = truncation fx /\ cy = truncation fy /\
    0 <= cx /\ 0 <= cy /\
    canvas_target x_frac y_frac bg_width bg_height = Ok (cx, cy) /\
    paste_origin (pw, ph) x_frac y_frac bg_width bg_height feet_row
      = Ok (paste_x, paste_y) /\
    paste_x = cx - pw / 2 /\ paste_y = cy - feet_row /\
    (paste_x + pw / 2, paste_y + feet_row) = (cx, cy).
Proof.
  intros Hx Hy Hw Hh.
  assert (Hmul : forall frac size, in_0_1 (NFloat frac) = true -> 0 <= size < 2 ^ 31 ->
            exists f, Float64.mul_int frac size = Ok f /\
                      scale_to_pixels frac size = Ok (truncation f) /\
                      0 <= truncation f).
  { intros frac size Hfrac Hsize.
    destruct (of_int_ok size 31) as (fs & Efs & Wfs); try lia.
    assert (Wp : within (Float64.mul frac fs) false 34 (Z.max 0 (33 - 52))).
    { apply (SFmul_within frac fs false false 1 0 32 0 33 0); try done; try lia.
      by apply in_0_1_within. }
    exists (Float64.mul frac fs).
    assert (Ef : Float64.mul_int frac size = Ok (Float64.mul frac fs))
      by (unfold Float64.mul_int; by rewrite Efs).
    split; [done|]. unfold scale_to_pixels. rewrite Ef. simpl.
    rewrite (to_int_truncates _ (within_is_finite _ _ _ _ Wp)).
    split; [done|]. by apply (truncation_nonneg _ _ _ Wp). }
  destruct (Hmul x_frac bg_width Hx Hw) as (fx & Efx & Ecx & Hcx).
  destruct (Hmul y_frac bg_height Hy Hh) as (fy & Efy & Ecy & Hcy).
  assert (E : canvas_target x_frac y_frac bg_width bg_height
              = Ok (truncation fx, truncation fy)).
  { unfold canvas_target. rewrite Ecx. simpl. by rewrite Ecy. }
  exists fx, fy, (truncation fx), (truncation fy),
         (truncation fx - pw / 2), (truncation fy - feet_row).
  repeat split; try done.
  - unfold paste_origin. by rewrite E.
  - f_equal; lia.
Qed.

Lemma paste_origin_truncated_witness :
  exists fx fy cx cy paste_x paste_y,
    Float64.mul_int lit_0_5 200 = Ok fx /\
    Float64.mul_int lit_0_8 100 = Ok fy /\
    cx = truncation fx /\ cy = truncation fy /\
    0 <= cx /\ 0 <= cy /\
    canvas_target lit_0_5 lit_0_8 200 100 = Ok (cx, cy) /\
    paste_origin (20, 30) lit_0_5 lit_0_8 200 100 29 = Ok (paste_x, paste_y) /\
    paste_x = cx - 20 / 2 /\ paste_y = cy - 29 /\
    (paste_x + 20 / 2, paste_y + 29) = (cx, cy).
Proof.
  apply (paste_origin_truncated 20 30 lit_0_5 lit_0_8 200 100 29);
    [vm_compute; reflexivity | vm_compute; reflexivity | lia | lia].
Defined.

(** The placement of the positioning test: (0.5, 0.8) on a 200 x 100
    background is pixel (100, 80). *)
Example canvas_target_test : canvas_target lit_0_5 lit_0_8 200 100 = Ok (100, 80).
Proof. vm_compute. reflexivity. Qed.

(** ** Config validator *)

Example validate_fractional_pose :
  _validate_config all_files fractional_pose_config = Ok ().
Proof. vm_compute. reflexivity. Qed.

Example validate_pose_5 :
  _validate_config all_files pose_5_config = Raise (ValueError (PoseIndexRange 0)).
Proof. vm_compute. reflexivity. Qed.

(** A guard [if v is None or not (test v): raise e], followed by [k]. *)
Lemma range_guard (test : number -> bool) (v : value) (check : result bool)
    (e : exn) (k : result unit) :
  check = (x ← value_number v; Ok (test x)) ->
  (bad ← (if is_None v then Ok true else negb <$> check);
   if bad : bool then Raise e else k) = Ok ()
  <-> value_has test v /\ k = Ok ().
Proof.
  intros ->. unfold value_has.
  assert (Hnum : forall n, value_number v = Ok n ->
            (if negb (test n) then Raise e else k) = Ok ()
            <-> (exists n', Ok n = Ok n' /\ test n' = true) /\ k = Ok ()).
  { intros n _. destruct (test n) eqn:Ht; simpl; split.
    - intros Hk. split; [by exists n|done].
    - by intros [_ ?].
    - discriminate.
    - intros [(? & [= <-] & Ht') _]. congruence. }
  destruct v as [|b|n|x|s]; simpl.
  1,5: split; [discriminate | intros [(? & ? & ?) _]; discriminate].
  all: by apply Hnum.
Qed.

(** The guard on [x] and [y] of a character. *)
Lemma xy_guard (x y : value) (e1 e2 : exn) (k : result unit) :
  (if is_None x || is_None y then Raise e1
   else x_ok ← between_le_le 0 x 1;
        xy_ok ← (if x_ok : bool then between_le_le 0 y 1 else Ok false);
        if negb xy_ok then Raise e2 else k) = Ok ()
  <-> value_has in_0_1 x /\ value_has in_0_1 y /\ k = Ok ().
Proof.
  unfold value_has, between_le_le.
  destruct (is_None x || is_None y) eqn:En.
  { split; [discriminate|]. intros ((nx & Hx & _) & (ny & Hy & _) & _).
    destruct x; try discriminate; destruct y; discriminate. }
  destruct (value_number x) as [nx|ex] eqn:Ex; simpl.
  2:{ split; [discriminate|]. intros ((? & ? & _) & _). discriminate. }
  fold (in_0_1 nx). destruct (in_0_1 nx) eqn:Hx; simpl.
  2:{ split; [discriminate|]. intros ((? & [= <-] & ?) & _). congruence. }
  destruct (value_number y) as [ny|ey] eqn:Ey; simpl.
  2:{ split; [discriminate|]. intros (_ & (? & ? & _) & _). discriminate. }
  fold (in_0_1 ny). destruct (in_0_1 ny) eqn:Hy; simpl.
  2:{ split; [discriminate|]. intros (_ & (? & [= <-] & ?) & _). congruence. }
  split; [intros Hk; eauto 10 | by intros (_ & _ & ?)].
Qed.

Lemma validate_character_ok (os : OS) (has_base_scale : bool) (i : nat)
    (c : gmap string value) :
  validate_character os has_base_scale i c = Ok ()
  <-> character_constraints (value_has in_pose_range) os has_base_scale c.
Proof.
  unfold validate_character, character_constraints, existing_file.
  unfold dict_has, dict_item. cbv zeta.
  destruct (c !! "sprite_sheet") as [sheet|] eqn:Esheet; simpl.
  2:{ split; [discriminate|]. by intros [(? & ? & _) _]. }
  destruct sheet as [| | | |p]; simpl;
    try (split; [discriminate|]; by intros [(? & ? & _) _]).
  destruct (is_file os p) eqn:Efile; simpl.
  2:{ split; [discriminate|]. intros [(? & [= <-] & ?) _]. congruence. }
  rewrite (range_guard in_pose_range) by reflexivity.
  rewrite xy_guard.
  assert (Hfile : (exists q, Some (VStr p) = Some (VStr q) /\ is_file os q = true))
    by eauto.
  destruct has_base_scale.
  - destruct (c !! "scale_override") as [so|] eqn:Eso; simpl.
    + rewrite (range_guard in_override_range) by reflexivity.
      split; [intros (? & ? & ? & ? & _); eauto 10|].
      intros (_ & ? & ? & ? & Hso). repeat split; try done. apply Hso. eauto.
    + split; [intros (? & ? & ? & _); repeat split; try done; by intros [? ?]|].
      intros (_ & ? & ? & ? & _). done.
  - rewrite (range_guard in_scale_range) by reflexivity.
    split; [intros (? & ? & ? & ? & _); eauto 10|].
    intros (_ & ? & ? & ? & ?). done.
Qed.

Lemma validate_characters_ok (os : OS) (has_base_scale : bool) (i : nat)
    (cs : list (gmap string value)) :
  validate_characters os has_base_scale i cs = Ok ()
  <-> Forall (character_constraints (value_has in_pose_range) os has_base_scale) cs.
Proof.
  revert i. induction cs as [|c cs IH]; intros i; simpl.
  - split; [by constructor|done].
  - rewrite Forall_cons, <- (IH (S i)), <- (validate_character_ok os has_base_scale i c).
    destruct (validate_character os has_base_scale i c) as [[]|e]; simpl.
    + split; [done|by intros [_ ?]].
    + split; [discriminate|by intros [? _]].
Qed.

Lemma validate_config_ok (os : OS) (config : Config) :
  _validate_config os config = Ok () <-> enforced_constraints os config.
Proof.
  unfold _validate_config, enforced_constraints, config_constraints, existing_file.
  unfold dict_has, dict_item. destruct config as [fields chars]. simpl.
  destruct (fields !! "background") as [bg|] eqn:Ebg; simpl.
  2:{ split; [discriminate|]. by intros [(? & ? & _) _]. }
  destruct chars as [cs|]; simpl.
  2:{ split; [discriminate|]. by intros (_ & (? & ? & _) & _). }
  destruct bg as [| | | |p]; simpl;
    try (split; [discriminate|]; by intros [(? & ? & _) _]).
  destruct (is_file os p) eqn:Efile; simpl.
  2:{ split; [discriminate|]. intros [(? & [= <-] & ?) _]. congruence. }
  pose proof (validate_characters_ok os
                (bool_decide (is_Some (fields !! "base_scale"))) 0 cs) as Hcs.
  destruct (validate_characters os _ 0 cs) as [[]|e]; simpl.
  2:{ split; [discriminate|]. intros (_ & (? & [= <-] & HF) & _).
      apply Hcs in HF. discriminate. }
  assert (HF : exists cs', Some cs = Some cs' /\
            Forall (character_constraints (value_has in_pose_range) os
                      (bool_decide (is_Some (fields !! "base_scale")))) cs')
    by (exists cs; split; [done|by apply Hcs]).
  assert (Hbg : exists q, Some (VStr p) = Some (VStr q) /\ is_file os q = true) by eauto.
  destruct (fields !! "base_scale") as [bs|] eqn:Ebs; simpl.
  - unfold between_lt_le, value_has.
    destruct (value_number bs) as [n|e] eqn:En; simpl.
    + fold (in_scale_range n). destruct (in_scale_range n) eqn:Hn; simpl.
      * split; [|done]. intros _. repeat split; try done.
        intros ? [= <-]. exists n. by rewrite En.
      * split; [discriminate|]. intros (_ & _ & Hbs).
        destruct (Hbs bs eq_refl) as (? & E & ?). rewrite En in E.
        injection E as <-. congruence.
    + split; [discriminate|]. intros (_ & _ & Hbs).
      destruct (Hbs bs eq_refl) as (? & E & ?). rewrite En in E. discriminate.
  - split; [|done]. intros _. repeat split; try done.
Qed.

(** Validation raises nothing but [ValueError], [FileNotFoundError] and,
    for a value of the wrong kind, [TypeError]. *)
Lemma value_number_exn (v : value) (e : exn) :
  value_number v = Raise e -> e = TypeError.
Proof. destruct v; simpl; congruence. Qed.

Lemma range_guard_exn (v : value) (check : result bool) (e1 e : exn) (k : result unit) :
  (forall e', check = Raise e' -> e' = TypeError) ->
  (bad ← (if is_None v then Ok true else negb <$> check);
   if bad : bool then Raise e1 else k) = Raise e ->
  e = e1 \/ e = TypeError \/ k = Raise e.
Proof.
  intros Hcheck. destruct (is_None v); simpl.
  - intros [= <-]. by left.
  - destruct check as [[]|e'] eqn:Ec; simpl.
    + intros [= <-]. by right; right.
    + intros [= <-]. by left.
    + intros [= <-]. right; left. by apply Hcheck.
Qed.

Lemma between_exn (v : value) (test : number -> bool) (e : exn) :
  (x ← value_number v; Ok (test x)) = Raise e -> e = TypeError.
Proof. destruct v; simpl; congruence. Qed.

Lemma validate_character_exn (os : OS) (has_base_scale : bool) (i : nat)
    (c : gmap string value) (e : exn) :
  validate_character os has_base_scale i c = Raise e -> validation_exn e.
Proof.
  unfold validate_character, validation_exn.
  assert (Hval : forall v, e = ValueError v ->
            (exists v, e = ValueError v) \/ (exists p, e = FileNotFoundError p) \/ e = TypeError)
    by eauto.
  assert (Hty : e = TypeError ->
            (exists v, e = ValueError v) \/ (exists p, e = FileNotFoundError p) \/ e = TypeError)
    by auto.
  destruct (dict_has c "sprite_sheet") eqn:Hs; simpl; [|intros [= <-]; eauto].
  unfold dict_item. unfold dict_has in Hs. apply bool_decide_eq_true in Hs as [sheet Es].
  rewrite Es. cbn [mbind result_bind].
  destruct sheet as [| | | |p]; simpl; try (intros [= <-]; auto).
  destruct (is_file os p); simpl; [|intros [= <-]; eauto].
  intros E. apply range_guard_exn in E; [|intros e'; apply between_exn].
  destruct E as [->|[->|E]]; eauto.
  destruct (is_None (dict_get c "x") || is_None (dict_get c "y")); [injection E as <-; eauto|].
  destruct (between_le_le 0 (dict_get c "x") 1) as [x_ok|ex] eqn:Ex; simpl in E;
    [|injection E as <-; apply between_exn in Ex; auto].
  destruct (if x_ok then between_le_le 0 (dict_get c "y") 1 else Ok false)
    as [xy_ok|ey] eqn:Ey; simpl in E.
  2:{ injection E as <-. destruct x_ok; [|discriminate]. apply between_exn in Ey. auto. }
  destruct xy_ok; simpl in E; [|injection E as <-; eauto].
  destruct has_base_scale.
  - destruct (dict_has c "scale_override"); [|discriminate].
    apply range_guard_exn in E; [|intros e'; apply between_exn].
    destruct E as [->|[->|E]]; eauto. discriminate.
  - apply range_guard_exn in E; [|intros e'; apply between_exn].
    destruct E as [->|[->|E]]; eauto. discriminate.
Qed.

Lemma validate_characters_exn (os : OS) (has_base_scale : bool) (i : nat)
    (cs : list (gmap string value)) (e : exn) :
  validate_characters os has_base_scale i cs = Raise e -> validation_exn e.
Proof.
  revert i. induction cs as [|c cs IH]; intros i; simpl; [discriminate|].
  destruct (validate_character os has_base_scale i c) as [[]|e'] eqn:E; simpl.
  - apply IH.
  - intros [= <-]. by eapply validate_character_exn.
Qed.

Lemma validate_config_exn (os : OS) (config : Config) (e : exn) :
  _validate_config os config = Raise e -> validation_exn e.
Proof.
  unfold _validate_config, dict_has, dict_item, between_lt_le.
  destruct config as [fields chars]. simpl.
  destruct (fields !! "background") as [bg|]; simpl;
    [|intros [= <-]; left; eauto].
  destruct chars as [cs|]; [|intros [= <-]; left; eauto]. simpl.
  destruct bg; simpl; try (intros [= <-]; right; right; done).
  destruct (is_file os s); simpl; [|intros [= <-]; right; left; eauto].
  destruct (validate_characters os _ 0 cs) as [[]|e'] eqn:E; simpl;
    [|intros [= <-]; by eapply validate_characters_exn].
  destruct (fields !! "base_scale") as [bs|]; simpl; [|discriminate].
  destruct (value_number bs) as [n|e'] eqn:En; simpl.
  - destruct (num_lt (NInt 0) n && num_le n (NInt 1)); simpl; [discriminate|].
    intros [= <-]. left. eauto.
  - intros [= <-]. apply value_number_exn in En as ->. right. by right.
Qed.

(** An integer from 0 to 4 is a number from 0 up to 5. *)
Lemma integer_pose_index_in_range (v : value) :
  integer_pose_index v -> value_has in_pose_range v.
Proof.
  intros (k & E & Hk). exists (NInt k). split; [done|].
  unfold in_pose_range, num_le, num_lt, num_compare, NUM_POSES in *.
  destruct (Z.compare_spec 0 k); try lia;
    destruct (Z.compare_spec k 5); try lia; done.
Qed.

Lemma spec_constraints_enforced (os : OS) (config : Config) :
  spec_constraints os config -> enforced_constraints os config.
Proof.
  intros (Hbg & (cs & Ecs & Hcs) & Hbs). split; [done|]. split; [|done].
  exists cs. split; [done|]. eapply Forall_impl; [exact Hcs|].
  intros c (? & ? & ? & ? & ?). repeat split; try done.
  by apply integer_pose_index_in_range.
Qed.

(** C9, as the specification states it, fails: a pose index of [2.5] is not
    an integer from 0 to 4, yet the validator raises nothing, since
    [0 <= 2.5 < 5] holds. *)
Lemma validator_accepts_fractional_pose :
  _validate_config all_files fractional_pose_config = Ok () /\
  ~ spec_constraints all_files fractional_pose_config.
Proof.
  split; [vm_compute; reflexivity|].
  intros (_ & (cs & [= <-] & Hcs) & _).
  apply Forall_cons in Hcs as [(_ & (k & E & _) & _) _].
  vm_compute in E. discriminate.
Qed.

(** What becomes of that config: [composite] opens both images and then
    fails on [poses[2.5]] with a [TypeError]. *)
Example composite_fractional_pose :
  let run := composite (H := reference_pil) tiny_os fractional_pose_config [] in
  (match run.1 with Ok _ => None | Raise e => Some e end) = Some TypeError /\
  describe <$> run.2 = ["open bg.png"; "open sprite.png"]%string.
Proof. vm_compute. split; reflexivity. Qed.

(** C9, amended.  The validator raises nothing exactly when: the
    background and characters keys are there and the background is an
    existing file; every character has a sprite sheet that is an existing
    file, a pose index that is a number [p] with [0 <= p < 5] (an integer
    is not required), [x] and [y] numbers in [0, 1], and, without a base
    scale, a scale in (0, 1], or, with one, a scale override in (0, 2] if
    it has any; a base scale, if there is one, is in (0, 1].  Otherwise it
    raises a [ValueError] or a [FileNotFoundError], or a [TypeError] for a
    value of the wrong kind.  Every config that meets the constraints of
    the specification passes. *)
Theorem validator_enforces (os : OS) (config : Config) :
  (_validate_config os config = Ok () <-> enforced_constraints os config) /\
  (~ enforced_constraints os config ->
   exists e, _validate_config os config = Raise e /\ validation_exn e) /\
  (spec_constraints os config -> _validate_config os config = Ok ()).
Proof.
  split; [apply validate_config_ok|]. split.
  - intros Hno. destruct (_validate_config os config) as [[]|e] eqn:E.
    + exfalso. by apply Hno, validate_config_ok.
    + exists e. split; [done|]. by eapply validate_config_exn.
  - intros Hspec. by apply validate_config_ok, spec_constraints_enforced.
Qed.

Lemma valid_config_meets_spec : spec_constraints all_files valid_config.
Proof.
  split; [by exists "bg.png"%string|]. split.
  - eexists. split; [reflexivity|]. constructor; [|constructor].
    split; [by exists "sprite.png"%string|].
    split; [exists 0; split; [reflexivity|unfold NUM_POSES; lia]|].
    split; [eexists; split; [reflexivity|vm_compute; reflexivity]|].
    split; [eexists; split; [reflexivity|vm_compute; reflexivity]|].
    eexists; split; [reflexivity|vm_compute; reflexivity].
  - intros bs Hbs. vm_compute in Hbs. discriminate.
Qed.

Lemma validator_enforces_witness :
  _validate_config all_files valid_config = Ok () /\
  exists e, _validate_config all_files pose_5_config = Raise e /\ validation_exn e.
Proof.
  split.
  - apply (validator_enforces all_files valid_config), valid_config_meets_spec.
  - apply (validator_enforces all_files pose_5_config).
    intros Hok. apply validate_config_ok in Hok. vm_compute in Hok. discriminate.
Defined.

(** ** Effective scale *)


Lemma in_override_range_int (n : Z) : in_override_range (NInt n) = true -> n = 1 \/ n = 2.
Proof.
  unfold in_override_range, num_lt, num_le, num_compare.
  destruct (Z.compare_spec 0 n), (Z.compare_spec n 2); simpl; try discriminate; lia.
Qed.




(** With base scale 0.25, an override of 1.0 and no override both give 0.25. *)
Example effective_scale_0_25 :
  effective_scale (VFloat lit_0_25) (with_override (Some (VFloat Float64.lit_1_0)))
    = Ok (NFloat lit_0_25) /\
  effective_scale (VFloat lit_0_25) (with_override None) = Ok (NFloat lit_0_25).
Proof. vm_compute. split; reflexivity. Qed.

(** ** Files opened and written *)

Lemma only_opens_pure {A} (r : result A) : only_opens (pure r).
Proof. intros log. exists []. by rewrite app_nil_r. Qed.

Lemma only_opens_ret {A} (a : A) : only_opens (mret a : IO A).
Proof. intros log. exists []. by rewrite app_nil_r. Qed.

Lemma only_opens_bind {A B} (m : IO A) (k : A -> IO B) :
  only_opens m -> (forall a, only_opens (k a)) -> only_opens (m ≫= k).
Proof.
  intros Hm Hk log. unfold mbind, IO_bind.
  destruct (Hm log) as (evs1 & E1 & O1).
  destruct (m log) as [[a|e] log1]; simpl in E1; subst log1.
  - destruct (Hk a (log ++ evs1)) as (evs2 & E2 & O2).
    exists (evs1 ++ evs2). rewrite E2, app_assoc. split; [done|].
    by rewrite forallb_app, O1, O2.
  - by exists evs1.
Qed.

Section CompositeFiles.
Context `{Pil} (os : OS).

Lemma only_opens_image_open (path : string) : only_opens (image_open os path).
Proof. intros log. by exists [EvOpen path]. Qed.

Lemma only_opens_composite_character background bg_w bg_h base_scale canvas c :
  only_opens (composite_character os background bg_w bg_h base_scale canvas c).
Proof.
  unfold composite_character.
  apply only_opens_bind; [apply only_opens_pure|]. intros sheet_path.
  apply only_opens_bind; [apply only_opens_image_open|]. intros sheet_img.
  apply only_opens_pure.
Qed.

Lemma only_opens_composite_characters background bg_w bg_h base_scale canvas cs :
  only_opens (composite_characters os background bg_w bg_h base_scale canvas cs).
Proof.
  revert canvas. induction cs as [|c cs IH]; intros canvas; simpl.
  - apply only_opens_ret.
  - apply only_opens_bind; [apply only_opens_composite_character|]. apply IH.
Qed.

Lemma only_opens_composite (config : Config) : only_opens (composite os config).
Proof.
  unfold composite.
  apply only_opens_bind; [apply only_opens_pure|]. intros _.
  apply only_opens_bind; [apply only_opens_pure|]. intros bg_path.
  apply only_opens_bind; [apply only_opens_image_open|]. intros bg_img.
  apply only_opens_bind; [apply only_opens_pure|]. intros characters.
  apply only_opens_bind; [apply only_opens_composite_characters|]. intros canvas.
  apply only_opens_ret.
Qed.





End CompositeFiles.


(** A whole run on the reference backend: the directory is made, the
    background and the sprite sheet are opened, and the image is saved last. *)
Example composite_to_file_run :
  let run := composite_to_file (H := reference_pil) tiny_os valid_config "out/scene.png" [] in
  run.1 = Ok () /\
  describe <$> run.2 = ["mkdir out"; "open bg.png"; "open sprite.png"; "save out/scene.png"]%string.
Proof. vm_compute. split; reflexivity. Qed.

(** The same run, stopped by validation: nothing is opened, nothing saved. *)
Example composite_to_file_invalid :
  let run := composite_to_file (H := reference_pil) tiny_os pose_5_config "out/scene.png" [] in
  run.1 = Raise (ValueError (PoseIndexRange 0)) /\
  describe <$> run.2 = ["mkdir out"]%string.
Proof. vm_compute. split; reflexivity. Qed.

(** * Further properties *)

(** ** The keyer never adds opacity *)

Lemma spec_keyed_alpha_bounds (L a : Z) :
  0 <= a -> 0 <= spec_keyed_alpha L a <= a.
Proof.
  intros Ha. unfold spec_keyed_alpha, WHITE_HIGH, WHITE_LOW.
  destruct (Z.leb_spec 245 L); [lia|]. destruct (Z.leb_spec L 220); [lia|]. split.
  - apply Z.div_pos; nia.
  - apply Z.div_le_upper_bound; nia.
Qed.

(** X1.  The keying loop of [_remove_white_background], before the alpha is
    blurred, raises nothing on an image with 8-bit alpha, and the alpha of
    every pixel it writes lies between 0 and the alpha the pixel had: it is
    kept, or it is lowered, which happens only to a pixel whose brightest
    channel is above [WHITE_LOW]. *)
Theorem keying_never_adds_opacity (img : AnyImage) :
  alpha_8bit img ->
  exists keyed, key_data img = Ok keyed /\
    forall x y, 0 <= x < any_width img -> 0 <= y < any_height img ->
      let a := (px (convert_RGBA img) x y).2 in
      0 <= (px keyed x y).2 <= a /\
      ((px keyed x y).2 = a \/ (px keyed x y).2 < a /\
         WHITE_LOW < Z.max (Z.max (px keyed x y).1.1.1 (px keyed x y).1.1.2) (px keyed x y).1.2).
Proof.
  intros H8. destruct (key_data_spec img H8) as (keyed & E & _ & _ & Hpx).
  exists keyed. split; [done|]. intros x y Hx Hy a.
  rewrite (Hpx x y Hx Hy). unfold spec_keyed_pixel. cbn [fst snd]. fold a.
  assert (Ha : 0 <= a <= 255) by (apply (H8 x y); done).
  set (L := Z.max _ _).
  pose proof (spec_keyed_alpha_bounds L a ltac:(lia)) as Hb.
  split; [done|].
  unfold spec_keyed_alpha in *. destruct (Z.leb_spec WHITE_HIGH L).
  - unfold WHITE_HIGH, WHITE_LOW in *. lia.
  - destruct (Z.leb_spec L WHITE_LOW); [by left|]. lia.
Qed.

Lemma keying_never_adds_opacity_witness :
  exists keyed, key_data transition_band_image = Ok keyed /\
    forall x y, 0 <= x < 10 -> 0 <= y < 10 ->
      let a := (px (convert_RGBA transition_band_image) x y).2 in
      0 <= (px keyed x y).2 <= a /\
      ((px keyed x y).2 = a \/ (px keyed x y).2 < a /\
         WHITE_LOW < Z.max (Z.max (px keyed x y).1.1.1 (px keyed x y).1.1.2) (px keyed x y).1.2).
Proof.
  apply (keying_never_adds_opacity transition_band_image).
  intros x y _ _. simpl. lia.
Defined.

(** ** The frames tile the sheet *)

(** X2.  Every column of a sheet that [_crop_poses] accepts lies in exactly
    one frame: column [x] of the sheet is column [x'] of frame [i], with the
    same pixels, and no other frame and column of the list is placed at
    [x]. *)
Theorem crop_poses_partition {P} (sheet : Image P) (poses : list (Image P)) (x : Z) :
  _crop_poses sheet = Ok poses ->
  0 <= x < width sheet ->
  exists (i : nat) (p : Image P) (x' : Z),
    poses !! i = Some p /\ 0 <= x' < width p /\
    (forall y, px p x' y = px sheet x y) /\
    forall (j : nat) (q : Image P) (x'' : Z),
      poses !! j = Some q -> 0 <= x'' < width q ->
      Z.of_nat j * (width sheet / NUM_POSES) + x'' = x ->
      j = i /\ x'' = x'.
Proof.
  unfold _crop_poses. intros E Hx.
  destruct (Z.ltb_spec (width sheet) NUM_POSES) as [|Hw]; [discriminate|].
  destruct (Z.ltb_spec (height sheet) 1) as [|Hh]; [discriminate|].
  cbn [orb] in E. rewrite py_range_NUM_POSES in E. injection E as <-.
  unfold NUM_POSES in *. set (W := width sheet) in *. set (c := W / 5).
  assert (Hc : 1 <= c) by (apply Z.div_le_lower_bound; lia).
  assert (Hc5 : 5 * c <= W) by (apply Z.mul_div_le; lia).
  set (k := Z.min (x / c) 4).
  assert (Hk : 0 <= k <= 4) by (pose proof (Z.div_pos x c); lia).
  assert (Hkx : k * c <= x).
  { assert (c * (x / c) <= x) by (apply Z.mul_div_le; lia). nia. }
  assert (Hkx' : k < 4 -> x < (k + 1) * c).
  { intros Hk4. assert (k = x / c) as -> by lia.
    pose proof (Z.mod_pos_bound x c ltac:(lia)). pose proof (Z.div_mod x c ltac:(lia)). nia. }
  exists (Z.to_nat k).
  assert (Hcases : forall (j : nat) (q : Image P) (x'' : Z),
            ((fun i : Z => crop sheet (i * c, 0, (if i <? 5 - 1 then (i + 1) * c else W),
                                       height sheet)) <$> [0; 1; 2; 3; 4]) !! j = Some q ->
            0 <= Z.of_nat j <= 4 /\
            q = crop sheet (Z.of_nat j * c, 0,
                            (if Z.of_nat j <? 4 then (Z.of_nat j + 1) * c else W),
                            height sheet)).
  { intros j q x'' Hq. do 5 (destruct j as [|j]; [injection Hq as <-; split; [lia|done]|]).
    discriminate. }
  eexists (crop sheet (k * c, 0, (if k <? 4 then (k + 1) * c else W), height sheet)),
          (x - k * c).
  split; [|split; [|split]].
  - assert (k = 0 \/ k = 1 \/ k = 2 \/ k = 3 \/ k = 4) as [-> | [-> | [-> | [-> | ->]]]] by lia;
      reflexivity.
  - cbn [width crop]. destruct (Z.ltb_spec k 4); [specialize (Hkx' ltac:(lia))|]; lia.
  - intros y. cbn [px crop]. f_equal; lia.
  - intros j q x'' Hq Hx'' Ex.
    destruct (Hcases j q x'' Hq) as [Hj ->]. cbn [width crop] in Hx''.
    assert (Z.of_nat j = k); [|split; [lia|subst k; lia]].
    destruct (Z.ltb_spec (Z.of_nat j) 4) as [Hj4|Hj4].
    + assert (Z.of_nat j * c <= x < (Z.of_nat j + 1) * c) by lia.
      assert (x / c = Z.of_nat j).
      { symmetry. apply (Z.div_unique x c (Z.of_nat j) x''); lia. }
      lia.
    + assert (Z.of_nat j = 4) by lia.
      assert (4 <= x / c) by (apply Z.div_le_lower_bound; lia). lia.
Qed.

Lemma crop_poses_partition_witness :
  exists (i : nat) (p : Image pixel_rgb) (x' : Z),
    numbered_frames !! i = Some p /\ 0 <= x' < width p /\
    (forall y, px p x' y = px numbered_sheet 57 y) /\
    forall (j : nat) (q : Image pixel_rgb) (x'' : Z),
      numbered_frames !! j = Some q -> 0 <= x'' < width q ->
      Z.of_nat j * (width numbered_sheet / NUM_POSES) + x'' = 57 ->
      j = i /\ x'' = x'.
Proof.
  apply (crop_poses_partition numbered_sheet numbered_frames 57).
  - reflexivity.
  - simpl. lia.
Defined.

(** X3.  [poses[pose_index]] on the frames of a sheet of at least 5 x 1
    pixels, for a pose index that passed the range check of the validator:
    an integer index (a [bool] counts as 0 or 1) lies in 0..4 and selects
    the frame that starts at column [k * (width // 5)]; a [float] index
    raises [TypeError]. *)
Theorem pose_selection {P} (sheet : Image P) (idx : value) (n : number) :
  NUM_POSES <= width sheet -> 1 <= height sheet ->
  value_number idx = Ok n -> in_pose_range n = true ->
  let selected := poses ← _crop_poses sheet; list_item poses idx in
  let col_width := width sheet / NUM_POSES in
  (forall k, n = NInt k ->
     0 <= k < NUM_POSES /\
     selected = Ok (crop sheet (k * col_width, 0,
                                (if k <? NUM_POSES - 1 then (k + 1) * col_width
                                 else width sheet),
                                height sheet))) /\
  (forall x, n = NFloat x -> selected = Raise TypeError).
Proof.
  intros Hw Hh En Hn selected col_width. subst selected.
  unfold _crop_poses.
  destruct (Z.ltb_spec (width sheet) NUM_POSES); [lia|].
  destruct (Z.ltb_spec (height sheet) 1); [lia|].
  cbn [orb mbind result_bind]. rewrite py_range_NUM_POSES. fold col_width. split.
  - intros k ->.
    assert (Hk : 0 <= k < NUM_POSES).
    { unfold in_pose_range, num_le, num_lt, num_compare in Hn.
      apply andb_true_iff in Hn as [Hlo Hhi].
      destruct (Z.compare_spec 0 k); try discriminate;
        destruct (Z.compare_spec k NUM_POSES); try discriminate; lia. }
    split; [done|]. unfold NUM_POSES in Hk.
    assert (Hidx : value_number idx ≫= num_int = Ok k) by (by rewrite En).
    unfold list_item.
    destruct idx as [|b|m|x|s]; try discriminate; rewrite Hidx; cbn [mbind result_bind];
      rewrite length_fmap; cbn [length]; (destruct (Z.ltb_spec k 0); [lia|]);
      unfold list_get; (destruct (Z.ltb_spec k 0); [lia|]);
      assert (k = 0 \/ k = 1 \/ k = 2 \/ k = 3 \/ k = 4) as [-> | [-> | [-> | [-> | ->]]]] by lia;
      reflexivity.
  - intros x ->. destruct idx as [|b|m|y|s]; try discriminate. done.
Qed.

Lemma pose_selection_witness :
  (0 <= 2 < NUM_POSES /\
   (poses ← _crop_poses numbered_sheet; list_item poses (VInt 2))
   = Ok (crop numbered_sheet (2 * (103 / NUM_POSES), 0,
                              (if 2 <? NUM_POSES - 1 then (2 + 1) * (103 / NUM_POSES) else 103),
                              50))) /\
  (poses ← _crop_poses numbered_sheet; list_item poses (VFloat lit_2_5)) = Raise TypeError.
Proof.
  split.
  - apply (proj1 (pose_selection numbered_sheet (VInt 2) (NInt 2)
                    ltac:(unfold NUM_POSES; simpl; lia) ltac:(simpl; lia) eq_refl eq_refl) 2 eq_refl).
  - apply (proj2 (pose_selection numbered_sheet (VFloat lit_2_5) (NFloat lit_2_5)
                    ltac:(unfold NUM_POSES; simpl; lia) ltac:(simpl; lia) eq_refl eq_refl) lit_2_5 eq_refl).
Defined.

(** ** Scaling a pose *)

Lemma truncation_lt (x : Float64.float) (K E : Z) :
  within x false K E -> 0 <= K -> truncation x < 2 ^ K.
Proof.
  intros Hw HK.
  assert (HK2 : 0 < 2 ^ K) by (apply Z.pow_pos_nonneg; lia).
  destruct x as [s|s| |s m e]; unfold within, truncation in *; try done.
  destruct Hw as (-> & Hd & _).
  pose proof (Zdigits2_bounds (Z.pos m) ltac:(lia)) as [_ Hm].
  pose proof (Zdigits2_nonneg (Z.pos m)) as Hd0.
  set (d := Zdigits2 (Z.pos m)) in *.
  destruct (Z.le_gt_cases 0 e) as [He|He].
  - replace (Z.max e 0) with e by lia. replace (Z.max (- e) 0) with 0 by lia.
    rewrite Z.quot_1_r.
    assert (Z.pos m * 2 ^ e < 2 ^ d * 2 ^ e).
    { apply Z.mul_lt_mono_pos_r; [apply Z.pow_pos_nonneg; lia|done]. }
    rewrite <- Z.pow_add_r in H by lia.
    eapply Z.lt_le_trans; [exact H|]. apply Z.pow_le_mono_r; lia.
  - replace (Z.max e 0) with 0 by lia. replace (Z.max (- e) 0) with (- e) by lia.
    rewrite Z.mul_1_r.
    assert (0 < 2 ^ (- e)) by (apply Z.pow_pos_nonneg; lia).
    rewrite Z.quot_div_nonneg by lia.
    apply Z.div_lt_upper_bound; [done|].
    rewrite <- Z.pow_add_r by lia.
    eapply Z.lt_le_trans; [exact Hm|]. apply Z.pow_le_mono_r; lia.
Qed.

Lemma in_override_range_within (x : Float64.float) :
  in_override_range (NFloat x) = true -> within x false 2 1.
Proof.
  unfold in_override_range, num_lt, num_le, num_compare. intros [H0 H1]%andb_true_iff.
  destruct x as [s|s| |s m e]; unfold within.
  - done.
  - simpl in H0, H1. destruct s; discriminate.
  - simpl in H0. discriminate.
  - unfold Float64.compare_int in H0, H1. cbn [fmap option_fmap option_map] in H0.
    assert (Hpow : forall k, 0 <= k -> 0 < 2 ^ k) by (intros; apply Z.pow_pos_nonneg; lia).
    destruct s.
    + exfalso. destruct e as [|p|p].
      * rewrite (proj2 (Z.compare_lt_iff (Z.neg m * 2 ^ 0) 0)) in H0 by (simpl; lia).
        discriminate.
      * pose proof (Hpow (Z.pos p) ltac:(lia)).
        rewrite (proj2 (Z.compare_lt_iff (Z.neg m * 2 ^ Z.pos p) 0)) in H0 by nia.
        discriminate.
      * rewrite (proj2 (Z.compare_lt_iff (Z.neg m) (0 * Z.pow_pos 2 p))) in H0 by lia.
        discriminate.
    + split; [done|]. destruct e as [|p|p].
      * assert (Z.pos m <= 2)
          by (destruct (Z.compare_spec (Z.pos m * 2 ^ 0) 2); try discriminate; lia).
        assert (Zdigits2 (Z.pos m) <= 2) by (apply Zdigits2_le; lia). lia.
      * pose proof (Hpow (Z.pos p) ltac:(lia)).
        assert (2 <= 2 ^ Z.pos p) by (apply (Z.pow_le_mono_r 2 1); lia).
        assert (Z.pos m * 2 ^ Z.pos p <= 2)
          by (destruct (Z.compare_spec (Z.pos m * 2 ^ Z.pos p) 2); try discriminate; lia).
        assert (m = 1%positive) as -> by nia.
        assert (2 ^ Z.pos p <= 2 ^ 1) by lia.
        assert (Z.pos p <= 1) by (apply (Z.pow_le_mono_r_iff 2); lia).
        simpl. lia.
      * rewrite Z.pow_pos_fold in H1.
        assert (Z.pos m <= 2 * 2 ^ Z.pos p)
          by (destruct (Z.compare_spec (Z.pos m) (2 * 2 ^ Z.pos p)); try discriminate; lia).
        assert (Zdigits2 (Z.pos m) <= Z.pos p + 2); [|lia].
        apply Zdigits2_le; [|lia]. rewrite Z.pow_add_r by lia. lia.
Qed.

Lemma scaled_height_ok (scale : number) (bg_height : Z) :
  in_override_range scale = true -> 0 <= bg_height < 2 ^ 31 ->
  exists h_scaled,
    num_mul scale (NInt bg_height) ≫= num_int = Ok h_scaled /\ 0 <= h_scaled < 2 ^ 35.
Proof.
  intros Hs Hb. destruct scale as [n|x].
  - exists (n * bg_height). split; [done|].
    destruct (in_override_range_int n Hs) as [-> | ->]; lia.
  - destruct (of_int_ok bg_height 31) as (fb & Efb & Wfb); try lia.
    assert (Wp : within (Float64.mul x fb) false 35 (Z.max 1 (34 - 52))).
    { apply (SFmul_within x fb false false 2 1 32 0 34 1); try done; try lia.
      by apply in_override_range_within. }
    exists (truncation (Float64.mul x fb)). split.
    + unfold num_mul, num_float. rewrite Efb. simpl.
      apply to_int_truncates, (within_is_finite _ _ _ _ Wp).
    + split; [by apply (truncation_nonneg _ _ _ Wp)|].
      apply (truncation_lt _ _ _ Wp). lia.
Qed.

(** X4.  [_resize_pose] for a scale in (0, 2], a background lower than
    [2 ^ 31] and a pose narrower than [2 ^ 31].  On a pose at least one row
    high the arithmetic raises nothing: the height asked for is
    [max(1, int(scale * bg_height))], the width asked for is
    [max(1, int(w * (h_new / h)))], and the result is what the resize of the
    library gives for that size, so [_resize_pose] raises only when that
    resize does; an image it returns has the size asked for, at least 1 in
    each dimension.  On a pose of height 0 it raises [ZeroDivisionError]. *)
Theorem resize_pose_size `{Pil} (pose : Image pixel_rgba) (bg_width bg_height : Z)
    (scale : number) :
  in_override_range scale = true ->
  0 <= bg_height < 2 ^ 31 ->
  0 <= width pose < 2 ^ 31 ->
  (1 <= height pose ->
   exists h_scaled ratio p,
     num_mul scale (NInt bg_height) ≫= num_int = Ok h_scaled /\
     Float64.truediv (Z.max 1 h_scaled) (height pose) = Ok ratio /\
     Float64.int_mul (width pose) ratio = Ok p /\
     _resize_pose pose bg_width bg_height scale
       = resize_lanczos pose (Z.max 1 (truncation p), Z.max 1 h_scaled) /\
     forall out, _resize_pose pose bg_width bg_height scale = Ok out ->
       height out = Z.max 1 h_scaled /\
       width out = Z.max 1 (truncation p) /\
       1 <= width out /\ 1 <= height out) /\
  (height pose = 0 ->
   _resize_pose pose bg_width bg_height scale = Raise ZeroDivisionError).
Proof.
  intros Hs Hb Hw.
  destruct (scaled_height_ok scale bg_height Hs Hb) as (h_scaled & Eh & Hh).
  assert (Eh' : exists scaled, num_mul scale (NInt bg_height) = Ok scaled /\
                               num_int scaled = Ok h_scaled).
  { destruct (num_mul scale (NInt bg_height)) as [scaled|]; [|discriminate]. eauto. }
  destruct Eh' as (scaled & Es & Ei).
  unfold _resize_pose. rewrite Es. simpl. rewrite Ei. simpl. split.
  - intros Hpose.
    destruct (truediv_ok (Z.max 1 h_scaled) (height pose) 35) as (ratio & Er & Wr); try lia.
    destruct (of_int_ok (width pose) 31) as (fw & Efw & Wfw); try lia.
    assert (Wp : within (Float64.mul fw ratio) false 69 (Z.max 0 (68 - 52))).
    { apply (SFmul_within fw ratio false false 32 0 36 0 68 0); try done; lia. }
    assert (Ep : Float64.int_mul (width pose) ratio = Ok (Float64.mul fw ratio))
      by (unfold Float64.int_mul; by rewrite Efw).
    exists h_scaled, ratio, (Float64.mul fw ratio).
    rewrite Er. simpl. rewrite Ep. simpl.
    rewrite (to_int_truncates _ (within_is_finite _ _ _ _ Wp)). simpl.
    split; [done|]. split; [done|]. split; [done|]. split; [done|].
    intros out Eout.
    destruct (resize_lanczos_size pose
                (Z.max 1 (truncation (Float64.mul fw ratio)), Z.max 1 h_scaled) out Eout)
      as [-> ->].
    simpl. lia.
  - intros ->. done.
Qed.

Lemma resize_pose_size_witness :
  (exists h_scaled ratio p,
     num_mul (NFloat lit_0_3) (NInt 100) ≫= num_int = Ok h_scaled /\
     Float64.truediv (Z.max 1 h_scaled) 50 = Ok ratio /\
     Float64.int_mul 20 ratio = Ok p /\
     _resize_pose (H := reference_pil) (image_new (20, 50) (255, 0, 0, 255)) 200 100
       (NFloat lit_0_3)
       = nearest_resize (image_new (20, 50) (255, 0, 0, 255))
           (Z.max 1 (truncation p), Z.max 1 h_scaled) /\
     forall out,
       _resize_pose (H := reference_pil) (image_new (20, 50) (255, 0, 0, 255)) 200 100
         (NFloat lit_0_3) = Ok out ->
       height out = Z.max 1 h_scaled /\
       width out = Z.max 1 (truncation p) /\
       1 <= width out /\ 1 <= height out) /\
  _resize_pose (H := reference_pil) (image_new (20, 0) (255, 0, 0, 255)) 200 100
    (NFloat lit_0_3) = Raise ZeroDivisionError.
Proof.
  split.
  - apply (resize_pose_size (H := reference_pil) (image_new (20, 50) (255, 0, 0, 255))
             200 100 (NFloat lit_0_3)); simpl; try lia; reflexivity.
  - apply (resize_pose_size (H := reference_pil) (image_new (20, 0) (255, 0, 0, 255))
             200 100 (NFloat lit_0_3)); simpl; try lia; reflexivity.
Defined.

(** The resize is the library's: a 1 x 1 pose at scale 2 on a background
    [2 ^ 31 - 1] high asks for a size beyond 32-bit integers, which the
    reference backend refuses. *)
Example resize_pose_too_large :
  _resize_pose (H := reference_pil) (image_new (1, 1) (255, 0, 0, 255))
    (2 ^ 31 - 1) (2 ^ 31 - 1) (NInt 2) = Raise OverflowError.
Proof. vm_compute. reflexivity. Qed.

(** ** The shadow colour *)

Lemma length_getdata {P} (img : Image P) :
  length (getdata img) = (Z.to_nat (height img) * Z.to_nat (width img))%nat.
Proof.
  unfold getdata. rewrite <- (length_py_range (height img)).
  induction (py_range (height img)) as [|y l IH]; [done|].
  rewrite bind_cons, length_app, IH, bind_singleton_fmap, length_fmap, length_py_range.
  simpl. lia.
Qed.

Lemma truediv_eq (a b k : Z) :
  0 <= a < 2 ^ k -> 0 < b -> 0 <= k <= 1023 ->
  Float64.truediv a b = Ok (SFdiv Float64.prec Float64.emax (Float64.exact a) (Float64.exact b)).
Proof.
  intros Ha Hb Hk. pose proof (SFdiv_within a b k Ha Hb Hk) as Hw.
  unfold Float64.truediv. destruct (Z.eqb_spec b 0) as [?|_]; [lia|].
  by rewrite (within_is_finite _ _ _ _ Hw).
Qed.

Lemma luminance_within (p : pixel_rgb) :
  rgb_8bit p -> within (luminance p) false 11 0.
Proof.
  intros (Hr & Hg & Hb). apply (SFdiv_within _ 3 10); lia.
Qed.

Lemma SFcompare_refl (x : Float64.float) :
  Float64.is_finite x = true -> SFcompare x x = Some Eq.
Proof.
  destruct x as [s|s| |s m e]; try discriminate; intros _; simpl.
  - done.
  - rewrite Z.compare_refl, Pos.compare_cont_refl. by destruct s.
Qed.

Lemma leb_refl (x : Float64.float) :
  Float64.is_finite x = true -> Float64.leb x x = true.
Proof.
  intros Hx. unfold Float64.leb, SFleb. by rewrite SFcompare_refl.
Qed.

Lemma sum_list_bounds (lo hi : Z) (l : list Z) :
  Forall (fun v => lo <= v <= hi) l ->
  lo * Z.of_nat (length l) <= sum_list_Z l <= hi * Z.of_nat (length l).
Proof.
  induction 1 as [|v l Hv _ IH]; simpl; [lia|].
  unfold sum_list_Z in *. simpl. lia.
Qed.

Lemma average_bounds (channel : pixel_rgb -> Z) (lo hi : Z) (l : list pixel_rgb) :
  l <> [] -> Forall (fun p => lo <= channel p <= hi) l ->
  lo <= average channel l <= hi.
Proof.
  intros Hl Hall. unfold average.
  assert (Hn : 0 < Z.of_nat (length l)) by (destruct l; [done|simpl; lia]).
  pose proof (sum_list_bounds lo hi (channel <$> l)) as Hs.
  rewrite length_fmap in Hs. specialize (Hs ltac:(by apply Forall_fmap)).
  split.
  - apply Z.div_le_lower_bound; lia.
  - apply Z.div_le_upper_bound; lia.
Qed.

Lemma sample_shadow_color_unfold (background : Image pixel_rgb) (region : Z * Z * Z * Z) :
  _sample_shadow_color background region =
    let '(x0, y0, x1, y1) := clamped_region background region in
    if (x1 <=? x0) || (y1 <=? y0) then Ok dark_gray
    else sample_pixels (getdata (crop background (x0, y0, x1, y1))).
Proof. by destruct region as [[[x0 y0] x1] y1]. Qed.

Lemma lit_0_1_within : within Float64.lit_0_1 false (-3) (-56).
Proof. unfold within, Float64.lit_0_1. vm_compute. repeat split; congruence. Qed.

Lemma lit_0_25_within : within Float64.lit_0_25 false (-1) (-54).
Proof. unfold within, Float64.lit_0_25. vm_compute. repeat split; congruence. Qed.

Lemma list_get_ok {A} (l : list A) (i : Z) :
  0 <= i < Z.of_nat (length l) -> exists a, list_get l i = Ok a /\ a ∈ l.
Proof.
  intros Hi. unfold list_get. destruct (Z.ltb_spec i 0); [lia|].
  destruct (lookup_lt_is_Some_2 l (Z.to_nat i)) as [a Ha]; [lia|].
  rewrite Ha. exists a. split; [done|]. by eapply list_elem_of_lookup_2.
Qed.

(** The two percentile indices: computing them raises nothing, and the
    lower one is a valid index. *)
Lemma percentile_index_ok (n : Z) :
  0 < n < 2 ^ 62 ->
  exists i10 i25,
    (p ← Float64.int_mul n Float64.lit_0_1; Float64.to_int p) = Ok i10 /\
    (p ← Float64.int_mul n Float64.lit_0_25; Float64.to_int p) = Ok i25 /\
    0 <= i10 < n /\ 0 <= i25.
Proof.
  intros Hn.
  pose proof (Zdigits2_bounds n ltac:(lia)) as [Hlo Hhi].
  pose proof (Zdigits2_nonneg n) as Hk0.
  assert (Hk62 : Zdigits2 n <= 62) by (apply Zdigits2_le; lia).
  set (k := Zdigits2 n) in *.
  assert (Hk1 : 1 <= k).
  { destruct (Z.le_gt_cases 1 k); [done|]. replace k with 0 in Hhi by lia. simpl in Hhi. lia. }
  destruct (of_int_ok n k) as (fn & Efn & Wfn); try lia.
  assert (W10 : within (Float64.mul fn Float64.lit_0_1) false (k - 2 + 1)
                  (Z.max (Z.max 0 (k - 52) - 56) (k - 2 - 52))).
  { apply (SFmul_within fn Float64.lit_0_1 false false (k + 1) (Z.max 0 (k - 52)) (-3) (-56));
      try done; try lia; try apply lit_0_1_within. }
  assert (W25 : within (Float64.mul fn Float64.lit_0_25) false (k + 1)
                  (Z.max (Z.max 0 (k - 52) - 54) (k - 52))).
  { apply (SFmul_within fn Float64.lit_0_25 false false (k + 1) (Z.max 0 (k - 52)) (-1) (-54));
      try done; try lia; try apply lit_0_25_within. }
  exists (truncation (Float64.mul fn Float64.lit_0_1)),
         (truncation (Float64.mul fn Float64.lit_0_25)).
  unfold Float64.int_mul. rewrite Efn. simpl.
  rewrite (to_int_truncates _ (within_is_finite _ _ _ _ W10)).
  rewrite (to_int_truncates _ (within_is_finite _ _ _ _ W25)).
  split; [done|]. split; [done|]. split; [split|].
  - by apply (truncation_nonneg _ _ _ W10).
  - pose proof (truncation_lt _ _ _ W10 ltac:(lia)) as Ht.
    replace (k - 2 + 1) with (k - 1) in Ht by lia. lia.
  - by apply (truncation_nonneg _ _ _ W25).
Qed.

Lemma length_sorted_floats (l : list Float64.float) :
  length (sorted_floats l) = length l.
Proof. unfold sorted_floats. apply Permutation_length, merge_sort_Permutation. Qed.

Lemma elem_of_sorted_floats (x : Float64.float) (l : list Float64.float) :
  x ∈ sorted_floats l -> x ∈ l.
Proof. unfold sorted_floats. by rewrite merge_sort_Permutation. Qed.

(** On a non-empty list of 8-bit pixels the sampling raises nothing, and
    its result is the channel-wise average of a luminance band of the
    pixels. *)
Lemma sample_pixels_ok (pixels : list pixel_rgb) :
  pixels <> [] -> Forall rgb_8bit pixels -> Z.of_nat (length pixels) < 2 ^ 62 ->
  exists lo hi,
    lo ∈ luminance <$> pixels /\ hi ∈ luminance <$> pixels /\
    sample_pixels pixels =
      Ok (average (fun p => p.1.1) (dark_band lo hi pixels),
          average (fun p => p.1.2) (dark_band lo hi pixels),
          average (fun p => p.2) (dark_band lo hi pixels)).
Proof.
  intros Hne H8 Hlen.
  assert (Hlum : mapM (fun p : pixel_rgb => Float64.truediv (p.1.1 + p.1.2 + p.2) 3) pixels
                 = Ok (luminance <$> pixels)).
  { apply mapM_result_ok. intros p Hp.
    rewrite Forall_forall in H8. destruct (H8 p Hp) as (Hr & Hg & Hb).
    apply (truediv_eq _ 3 10); lia. }
  assert (Hn : 0 < Z.of_nat (length pixels)) by (destruct pixels; [done|simpl; lia]).
  destruct (percentile_index_ok (Z.of_nat (length pixels))) as (i10 & i25 & E10 & E25 & H10 & H25);
    [lia|].
  assert (Hlen_sorted : Z.of_nat (length (sorted_floats (luminance <$> pixels)))
                        = Z.of_nat (length pixels)).
  { by rewrite length_sorted_floats, length_fmap. }
  destruct (list_get_ok (sorted_floats (luminance <$> pixels)) (Z.max 0 i10))
    as (lo & Elo & Hlo); [lia|].
  destruct (list_get_ok (sorted_floats (luminance <$> pixels))
              (Z.min (Z.of_nat (length pixels) - 1) i25))
    as (hi & Ehi & Hhi); [lia|].
  exists lo, hi.
  split; [by apply elem_of_sorted_floats|]. split; [by apply elem_of_sorted_floats|].
  unfold sample_pixels. destruct pixels as [|p0 ps] eqn:Epix; [done|]. rewrite <- Epix in *.
  rewrite Hlum. cbn [mbind result_bind].
  rewrite Hlen_sorted.
  destruct (Z.eqb_spec (Z.of_nat (length pixels)) 0) as [?|_]; [lia|].
  rewrite E10, E25. cbn [mbind result_bind].
  rewrite Elo. cbn [mbind result_bind]. rewrite Ehi. cbn [mbind result_bind].
  reflexivity.
Qed.

Lemma dark_band_subset (lo hi : Float64.float) (pixels : list pixel_rgb) :
  pixels <> [] ->
  dark_band lo hi pixels <> [] /\ forall p, p ∈ dark_band lo hi pixels -> p ∈ pixels.
Proof.
  intros Hne. unfold dark_band.
  set (kept := filter _ _).
  assert (Hsub : forall p, p ∈ kept.*1 -> p ∈ pixels).
  { intros p [[p' l] [-> Hin]]%list_elem_of_fmap.
    apply list_elem_of_filter in Hin as [_ Hin]. by apply elem_of_zip_l in Hin. }
  destruct (kept.*1) as [|q qs]; [done|]. split; [done|]. exact Hsub.
Qed.

Lemma pixels_of_region (background : Image pixel_rgb) (x0 y0 x1 y1 : Z) (p : pixel_rgb) :
  p ∈ getdata (crop background (x0, y0, x1, y1)) ->
  exists x y, x0 <= x < x1 /\ y0 <= y < y1 /\ p = px background x y.
Proof.
  intros (x & y & Hx & Hy & ->)%elem_of_getdata. simpl in *.
  exists (x + x0), (y + y0). split; [lia|]. split; [lia|done].
Qed.

Lemma region_pixels (background : Image pixel_rgb) (x0 y0 x1 y1 : Z) :
  x0 < x1 -> y0 < y1 ->
  getdata (crop background (x0, y0, x1, y1)) <> [] /\
  Z.of_nat (length (getdata (crop background (x0, y0, x1, y1)))) = (y1 - y0) * (x1 - x0).
Proof.
  intros Hx Hy.
  assert (Hlen : Z.of_nat (length (getdata (crop background (x0, y0, x1, y1))))
                 = (y1 - y0) * (x1 - x0)).
  { rewrite length_getdata. simpl. lia. }
  split; [|done]. intros E. rewrite E in Hlen. simpl in Hlen. nia.
Qed.

Lemma sample_shadow_color_ok (background : Image pixel_rgb) (region : Z * Z * Z * Z) :
  image_8bit background ->
  0 <= width background < 2 ^ 31 ->
  0 <= height background < 2 ^ 31 ->
  exists c, _sample_shadow_color background region = Ok c /\ rgb_8bit c.
Proof.
  intros H8 Hw Hh. rewrite sample_shadow_color_unfold.
  destruct region as [[[x0 y0] x1] y1]. unfold clamped_region.
  set (cx0 := Z.max 0 x0). set (cy0 := Z.max 0 y0).
  set (cx1 := Z.min (width background) x1). set (cy1 := Z.min (height background) y1).
  destruct ((cx1 <=? cx0) || (cy1 <=? cy0)) eqn:Eempty.
  - exists dark_gray. split; [done|]. unfold rgb_8bit, dark_gray. simpl. lia.
  - apply orb_false_iff in Eempty as [Hx%Z.leb_gt Hy%Z.leb_gt].
    destruct (region_pixels background cx0 cy0 cx1 cy1 Hx Hy) as [Hne Hlen].
    set (pixels := getdata (crop background (cx0, cy0, cx1, cy1))) in *.
    assert (Hall : Forall rgb_8bit pixels).
    { apply Forall_forall. intros p (x & y & Hpx & Hpy & ->)%pixels_of_region.
      apply H8; lia. }
    destruct (sample_pixels_ok pixels Hne Hall) as (lo & hi & _ & _ & E).
    { rewrite Hlen. change (2 ^ 62) with (2 ^ 31 * 2 ^ 31).
      apply Z.mul_lt_mono_nonneg; lia. }
    rewrite E. eexists. split; [done|].
    destruct (dark_band_subset lo hi pixels Hne) as [Hdne Hsub].
    assert (Hdark : Forall rgb_8bit (dark_band lo hi pixels)).
    { apply Forall_forall. intros p Hp. rewrite Forall_forall in Hall. auto. }
    unfold rgb_8bit. simpl. repeat split;
      apply (average_bounds _ 0 255 _ Hdne); (eapply Forall_impl; [exact Hdark|]);
      intros p (? & ? & ?); lia.
Qed.

(** X5.  On a background of 8-bit pixels, smaller than [2 ^ 31] in each
    dimension, [_sample_shadow_color] raises nothing for any region and
    returns an 8-bit colour; for a region that is empty or misses the
    background it returns the dark grey [(50, 50, 50)]. *)
Theorem sample_shadow_color_valid (background : Image pixel_rgb) (region : Z * Z * Z * Z) :
  image_8bit background ->
  0 <= width background < 2 ^ 31 ->
  0 <= height background < 2 ^ 31 ->
  exists c, _sample_shadow_color background region = Ok c /\ rgb_8bit c /\
    let '(x0, y0, x1, y1) := region in
    (x1 <= x0 \/ y1 <= y0 \/ x1 <= 0 \/ y1 <= 0 \/
     width background <= x0 \/ height background <= y0 -> c = dark_gray).
Proof.
  intros H8 Hw Hh.
  destruct (sample_shadow_color_ok background region H8 Hw Hh) as (c & Ec & Hc).
  exists c. split; [done|]. split; [done|].
  destruct region as [[[x0 y0] x1] y1]. intros Hout.
  rewrite sample_shadow_color_unfold in Ec. unfold clamped_region in Ec.
  destruct (_ || _) eqn:Eempty in Ec; [congruence|].
  apply orb_false_iff in Eempty as [Hx%Z.leb_gt Hy%Z.leb_gt]. lia.
Qed.

Lemma sample_shadow_color_valid_witness :
  exists c, _sample_shadow_color gray_background (1, 2, 6, 7) = Ok c /\ rgb_8bit c /\
    (6 <= 1 \/ 7 <= 2 \/ 6 <= 0 \/ 7 <= 0 \/ 8 <= 1 \/ 8 <= 2 -> c = dark_gray).
Proof.
  apply (sample_shadow_color_valid gray_background (1, 2, 6, 7)).
  - intros x y _ _. unfold rgb_8bit. simpl. lia.
  - simpl. lia.
  - simpl. lia.
Defined.

Lemma filter_all {A} (P : A -> Prop) `{!forall a, Decision (P a)} (l : list A) :
  Forall P l -> filter P l = l.
Proof.
  induction 1 as [|a l Ha _ IH]; [done|]. rewrite filter_cons_True by done. by rewrite IH.
Qed.

Lemma sum_list_const (v : Z) (l : list Z) :
  Forall (fun u => u = v) l -> sum_list_Z l = v * Z.of_nat (length l).
Proof.
  induction 1 as [|u l -> _ IH]; unfold sum_list_Z in *; simpl; [lia|]. rewrite IH. lia.
Qed.

Lemma average_const (channel : pixel_rgb -> Z) (c : pixel_rgb) (l : list pixel_rgb) :
  l <> [] -> Forall (fun p => p = c) l -> average channel l = channel c.
Proof.
  intros Hne Hall. unfold average.
  rewrite (sum_list_const (channel c)).
  - rewrite length_fmap. apply Z.div_mul. destruct l; [done|simpl; lia].
  - apply Forall_fmap. eapply Forall_impl; [exact Hall|]. by intros p ->.
Qed.

(** X6.  When the part of the region that lies on the background is not
    empty and has one 8-bit colour throughout, [_sample_shadow_color]
    returns that colour. *)
Theorem sample_shadow_color_uniform (background : Image pixel_rgb)
    (region : Z * Z * Z * Z) (x0 y0 x1 y1 : Z) (c : pixel_rgb) :
  clamped_region background region = (x0, y0, x1, y1) ->
  x0 < x1 -> y0 < y1 ->
  width background < 2 ^ 31 -> height background < 2 ^ 31 ->
  rgb_8bit c ->
  (forall x y, x0 <= x < x1 -> y0 <= y < y1 -> px background x y = c) ->
  _sample_shadow_color background region = Ok c.
Proof.
  intros Eregion Hx Hy Hw Hh Hc Hconst.
  rewrite sample_shadow_color_unfold, Eregion.
  destruct (Z.leb_spec x1 x0); [lia|]. destruct (Z.leb_spec y1 y0); [lia|]. cbn [orb].
  destruct (region_pixels background x0 y0 x1 y1 Hx Hy) as [Hne Hlen].
  set (pixels := getdata (crop background (x0, y0, x1, y1))) in *.
  assert (Hall : Forall (fun p => p = c) pixels).
  { apply Forall_forall. intros p (x & y & Hpx & Hpy & ->)%pixels_of_region. by apply Hconst. }
  assert (Hbounds : 0 <= x0 /\ 0 <= y0 /\ x1 < 2 ^ 31 /\ y1 < 2 ^ 31).
  { destruct region as [[[rx0 ry0] rx1] ry1]. unfold clamped_region in Eregion.
    injection Eregion as <- <- <- <-. lia. }
  destruct (sample_pixels_ok pixels Hne) as (lo & hi & Hlo & Hhi & E).
  { eapply Forall_impl; [exact Hall|]. by intros p ->. }
  { rewrite Hlen. change (2 ^ 62) with (2 ^ 31 * 2 ^ 31).
    apply Z.mul_lt_mono_nonneg; lia. }
  rewrite E.
  assert (Hlums : forall l, l ∈ luminance <$> pixels -> l = luminance c).
  { intros l (p & -> & Hp)%list_elem_of_fmap. rewrite Forall_forall in Hall.
    by rewrite (Hall p Hp). }
  rewrite (Hlums lo Hlo), (Hlums hi Hhi).
  assert (Hband : dark_band (luminance c) (luminance c) pixels = pixels).
  { unfold dark_band. rewrite filter_all.
    - rewrite fst_zip by (rewrite length_fmap; lia). by destruct pixels.
    - apply Forall_forall. intros [p l] Hin. apply elem_of_zip_r in Hin. simpl.
      rewrite (Hlums l Hin).
      rewrite leb_refl by apply (within_is_finite _ _ _ _ (luminance_within c Hc)). done. }
  rewrite Hband, !(average_const _ c pixels Hne Hall). by destruct c as [[r g] b].
Qed.

Lemma sample_shadow_color_uniform_witness :
  _sample_shadow_color gray_background (-3, 2, 6, 100) = Ok (128, 128, 128).
Proof.
  apply (sample_shadow_color_uniform gray_background (-3, 2, 6, 100) 0 2 6 8 (128, 128, 128)).
  - reflexivity.
  - lia.
  - lia.
  - simpl. lia.
  - simpl. lia.
  - unfold rgb_8bit. simpl. lia.
  - intros x y _ _. reflexivity.
Defined.

(** ** The shadow layer *)

(** The table of [int(a * 0.35)], checked entry by entry by evaluation. *)
Lemma shadow_alpha_table : forallb shadow_alpha_entry_ok (seq 0 256) = true.
Proof. vm_compute. reflexivity. Qed.

Lemma shadow_alpha_spec (a : Z) :
  0 <= a <= 255 ->
  exists v, shadow_alpha a = Ok v /\
    0 <= v <= 89 /\ a * 35 / 100 - 1 <= v <= a * 35 / 100.
Proof.
  intros Ha.
  pose proof shadow_alpha_table as Ht. rewrite forallb_forall in Ht.
  specialize (Ht (Z.to_nat a)). unfold shadow_alpha_entry_ok in Ht.
  rewrite Z2Nat.id in Ht by lia.
  assert (Hin : In (Z.to_nat a) (seq 0 256)) by (apply in_seq; lia).
  apply Ht in Hin. destruct (shadow_alpha a) as [v|]; [|discriminate].
  exists v. split; [done|].
  apply andb_true_iff in Hin as [[H1 H2]%andb_true_iff H3].
  assert (a * 35 / 100 < 90) by (apply Z.div_lt_upper_bound; lia).
  lia.
Qed.

Lemma alpha_8bit_checked (img : Image pixel_rgba) :
  alpha_8bit_check img = true -> alpha_8bit (ImRGBA img).
Proof.
  unfold alpha_8bit_check, alpha_8bit, any_width, any_height. simpl.
  rewrite forallb_forall. intros Hall x y Hx Hy.
  specialize (Hall (px img x y)).
  assert (Hin : In (px img x y) (getdata img)).
  { apply list_elem_of_In. eapply list_elem_of_lookup_2, (getdata_lookup img x y); lia. }
  apply Hall in Hin. lia.
Qed.

Lemma shadow_from_alpha_run `{Pil} (alpha : Image Z) (offset : Z * Z) (blur : Z)
    (shadow_color : option pixel_rgb) :
  let pad := shadow_pad offset blur in
  let blurred := shadow_layer alpha offset blur in
  alpha_8bit (ImRGBA blurred) ->
  _shadow_from_alpha alpha offset blur shadow_color
  = Ok (putdata (image_new (width alpha + 2 * pad, height alpha + 2 * pad) (0, 0, 0, 0))
          (shadow_pixel (default dark_gray shadow_color) <$> getdata blurred), pad).
Proof.
  intros pad blurred H8.
  unfold _shadow_from_alpha. destruct offset as [ox oy].
  destruct (default dark_gray shadow_color) as [[r g] b] eqn:Ec.
  change (gaussian_blur_RGBA blur _) with blurred.
  rewrite (mapM_result_ok _ (shadow_pixel (r, g, b))); [done|].
  intros p (x & y & Hx & Hy & ->)%elem_of_getdata.
  unfold shadow_pixel. destruct (Z.ltb_spec 0 (px blurred x y).2) as [Hpos|]; [|done].
  destruct (shadow_alpha_spec (px blurred x y).2) as (v & Ev & _).
  { apply (H8 x y); unfold any_width, any_height; simpl; lia. }
  fold (shadow_alpha (px blurred x y).2). rewrite Ev. done.
Qed.

(** X7.  When the blurred silhouette has the size of the padded layer and
    8-bit alpha, [_shadow_from_alpha] raises nothing and returns the padding
    [blur * 2 + max(|ox|, |oy|)] and a shadow of the padded size.  A pixel of
    the shadow is fully transparent black where the blurred alpha is 0;
    elsewhere it has the shadow colour (dark grey when none is given) and
    the alpha [int(a * 0.35)], which is 35 % of the blurred alpha rounded
    down, or one less, and never above 89. *)
Theorem shadow_from_alpha_layer `{Pil} (alpha : Image Z) (offset : Z * Z) (blur : Z)
    (shadow_color : option pixel_rgb) :
  let pad := shadow_pad offset blur in
  let tw := width alpha + 2 * pad in
  let th := height alpha + 2 * pad in
  let blurred := shadow_layer alpha offset blur in
  width blurred = tw -> height blurred = th ->
  alpha_8bit (ImRGBA blurred) ->
  exists shadow,
    _shadow_from_alpha alpha offset blur shadow_color = Ok (shadow, pad) /\
    width shadow = tw /\ height shadow = th /\
    forall x y, 0 <= x < tw -> 0 <= y < th ->
      let a := (px blurred x y).2 in
      (a = 0 -> px shadow x y = (0, 0, 0, 0)) /\
      (0 < a -> exists v,
         px shadow x y = (default dark_gray shadow_color, v) /\
         shadow_alpha a = Ok v /\
         0 <= v <= 89 /\ a * 35 / 100 - 1 <= v <= a * 35 / 100).
Proof.
  intros pad tw th blurred Hbw Hbh H8.
  exists (putdata (image_new (tw, th) (0, 0, 0, 0))
            (shadow_pixel (default dark_gray shadow_color) <$> getdata blurred)).
  split; [by apply shadow_from_alpha_run|]. split; [done|]. split; [done|].
  intros x y Hx Hy a.
  assert (Hpx : px (putdata (image_new (tw, th) (0, 0, 0, 0))
                      (shadow_pixel (default dark_gray shadow_color) <$> getdata blurred)) x y
                = shadow_pixel (default dark_gray shadow_color) (px blurred x y)).
  { unfold putdata. cbn [px width image_new fst].
    rewrite list_lookup_fmap, <- Hbw, getdata_lookup by lia. done. }
  rewrite Hpx. unfold shadow_pixel. fold a. split.
  - intros ->. done.
  - intros Ha. destruct (Z.ltb_spec 0 a); [|lia].
    destruct (shadow_alpha_spec a) as (v & Ev & Hv).
    { apply (H8 x y); unfold any_width, any_height; simpl; lia. }
    exists v. rewrite Ev. done.
Qed.

Lemma shadow_from_alpha_layer_witness :
  exists shadow,
    _shadow_from_alpha (H := reference_pil) (image_new (2, 2) 255) (1, 2) 1 (Some (10, 20, 30))
      = Ok (shadow, 4) /\
    width shadow = 10 /\ height shadow = 10 /\
    forall x y, 0 <= x < 10 -> 0 <= y < 10 ->
      let a := (px (shadow_layer (H := reference_pil) (image_new (2, 2) 255) (1, 2) 1) x y).2 in
      (a = 0 -> px shadow x y = (0, 0, 0, 0)) /\
      (0 < a -> exists v,
         px shadow x y = ((10, 20, 30), v) /\
         shadow_alpha a = Ok v /\
         0 <= v <= 89 /\ a * 35 / 100 - 1 <= v <= a * 35 / 100).
Proof.
  apply (shadow_from_alpha_layer (H := reference_pil) (image_new (2, 2) 255) (1, 2) 1
           (Some (10, 20, 30))).
  - reflexivity.
  - reflexivity.
  - apply alpha_8bit_checked. vm_compute. reflexivity.
Defined.

(** [int(a * 0.35)] is a binary64 product: for 180 it is 62, one below
    35 % of 180. *)
Example shadow_alpha_180 : shadow_alpha 180 = Ok 62 /\ 180 * 35 / 100 = 63.
Proof. vm_compute. split; reflexivity. Qed.

(** ** One character onto the canvas *)

Lemma paste_origin_ok (pw ph : Z) (x_frac y_frac : Float64.float)
    (bg_width bg_height feet_row : Z) :
  in_0_1 (NFloat x_frac) = true ->
  in_0_1 (NFloat y_frac) = true ->
  0 <= bg_width < 2 ^ 31 ->
  0 <= bg_height < 2 ^ 31 ->
  exists cx cy,
    canvas_target x_frac y_frac bg_width bg_height = Ok (cx, cy) /\
    0 <= cx < 2 ^ 34 /\ 0 <= cy < 2 ^ 34 /\
    paste_origin (pw, ph) x_frac y_frac bg_width bg_height feet_row
      = Ok (cx - pw / 2, cy - feet_row).
Proof.
  intros Hx Hy Hw Hh.
  assert (Hmul : forall frac size, in_0_1 (NFloat frac) = true -> 0 <= size < 2 ^ 31 ->
            exists c, scale_to_pixels frac size = Ok c /\ 0 <= c < 2 ^ 34).
  { intros frac size Hfrac Hsize.
    destruct (of_int_ok size 31) as (fs & Efs & Wfs); try lia.
    assert (Wp : within (Float64.mul frac fs) false 34 (Z.max 0 (33 - 52))).
    { apply (SFmul_within frac fs false false 1 0 32 0 33 0); try done; try lia.
      by apply in_0_1_within. }
    exists (truncation (Float64.mul frac fs)). split.
    - unfold scale_to_pixels, Float64.mul_int. rewrite Efs. simpl.
      apply to_int_truncates, (within_is_finite _ _ _ _ Wp).
    - split; [by apply (truncation_nonneg _ _ _ Wp)|]. apply (truncation_lt _ _ _ Wp). lia. }
  destruct (Hmul x_frac bg_width Hx Hw) as (cx & Ecx & Hcx).
  destruct (Hmul y_frac bg_height Hy Hh) as (cy & Ecy & Hcy).
  assert (E : canvas_target x_frac y_frac bg_width bg_height = Ok (cx, cy)).
  { unfold canvas_target. rewrite Ecx. simpl. by rewrite Ecy. }
  exists cx, cy. repeat split; try done; try lia.
  unfold paste_origin. by rewrite E.
Qed.

(** X8.  [_composite_one] for fractions in [0, 1], sizes below [2 ^ 31],
    a background of 8-bit pixels and a blurred silhouette with 8-bit alpha:
    everything before the two pastes raises nothing.  The shadow colour is
    sampled from the region under the sprite clamped to the background; the
    shadow is pasted first, 22 pixels up and left of the paste origin
    whatever the shadow offset is, and the sprite is pasted over it at the
    paste origin.  The result is that of the two pastes of the library, so
    [_composite_one] raises only when one of them does. *)
Theorem composite_one_layers `{Pil} (canvas : Image pixel_rgba) (background : Image pixel_rgb)
    (pose : Image pixel_rgba) (x_frac y_frac : Float64.float)
    (bg_width bg_height feet_row : Z) :
  in_0_1 (NFloat x_frac) = true ->
  in_0_1 (NFloat y_frac) = true ->
  0 <= bg_width < 2 ^ 31 ->
  0 <= bg_height < 2 ^ 31 ->
  image_8bit background ->
  0 <= width background < 2 ^ 31 ->
  0 <= height background < 2 ^ 31 ->
  alpha_8bit (ImRGBA (shadow_layer (band_A pose) SHADOW_OFFSET SHADOW_BLUR_RADIUS)) ->
  exists paste_x paste_y color shadow,
    paste_origin (width pose, height pose) x_frac y_frac bg_width bg_height feet_row
      = Ok (paste_x, paste_y) /\
    _sample_shadow_color background
      (Z.max 0 (paste_x - width pose / 4), Z.max 0 (paste_y + height pose / 2),
       Z.min bg_width (paste_x + width pose + width pose / 4),
       Z.min bg_height (paste_y + height pose + height pose / 2 + 12)) = Ok color /\
    rgb_8bit color /\
    _shadow_from_alpha (band_A pose) SHADOW_OFFSET SHADOW_BLUR_RADIUS (Some color)
      = Ok (shadow, 22) /\
    _composite_one canvas background pose x_frac y_frac bg_width bg_height feet_row
      = (shadowed ← paste_RGBA canvas shadow (paste_x - 22, paste_y - 22) shadow;
         paste_RGBA shadowed pose (paste_x, paste_y) pose).
Proof.
  intros Hx Hy Hw Hh H8 Hbw Hbh Ha.
  destruct (paste_origin_ok (width pose) (height pose) x_frac y_frac bg_width bg_height
              feet_row Hx Hy Hw Hh) as (cx & cy & _ & _ & _ & Eo).
  set (paste_x := cx - width pose / 2) in *. set (paste_y := cy - feet_row) in *.
  unfold _composite_one. rewrite Eo. cbn [mbind result_bind SHADOW_OFFSET].
  destruct (sample_shadow_color_ok background
              (Z.max 0 (paste_x - width pose / 4), Z.max 0 (paste_y + height pose / 2),
               Z.min bg_width (paste_x + width pose + width pose / 4),
               Z.min bg_height (paste_y + height pose + height pose / 2 + 6 * 2))
              H8 Hbw Hbh) as (color & Ec & Hc).
  rewrite Ec. cbn [mbind result_bind].
  pose proof (shadow_from_alpha_run (band_A pose) SHADOW_OFFSET SHADOW_BLUR_RADIUS
                (Some color) Ha) as Es.
  change (shadow_pad SHADOW_OFFSET SHADOW_BLUR_RADIUS) with 22 in Es.
  change (4, 6) with SHADOW_OFFSET. rewrite Es. cbn [mbind result_bind].
  exists paste_x, paste_y, color. eexists.
  split; [done|]. split; [exact Ec|]. split; [done|]. split; [done|].
  replace (paste_x + 4 - (22 + 4)) with (paste_x - 22) by lia.
  replace (paste_y + 6 - (22 + 6)) with (paste_y - 22) by lia. done.
Qed.

Lemma composite_one_layers_witness :
  exists paste_x paste_y color shadow,
    paste_origin (2, 2) lit_0_5 lit_0_8 8 8 1 = Ok (paste_x, paste_y) /\
    _sample_shadow_color gray_background
      (Z.max 0 (paste_x - 2 / 4), Z.max 0 (paste_y + 2 / 2),
       Z.min 8 (paste_x + 2 + 2 / 4),
       Z.min 8 (paste_y + 2 + 2 / 2 + 12)) = Ok color /\
    rgb_8bit color /\
    _shadow_from_alpha (H := reference_pil) (band_A red_pose) SHADOW_OFFSET
      SHADOW_BLUR_RADIUS (Some color) = Ok (shadow, 22) /\
    _composite_one (H := reference_pil) (convert_RGBA (ImRGB gray_background))
      gray_background red_pose lit_0_5 lit_0_8 8 8 1
      = (shadowed ← checked_paste (convert_RGBA (ImRGB gray_background))
                      shadow (paste_x - 22, paste_y - 22) shadow;
         checked_paste shadowed red_pose (paste_x, paste_y) red_pose).
Proof.
  apply (composite_one_layers (H := reference_pil) (convert_RGBA (ImRGB gray_background))
           gray_background red_pose lit_0_5 lit_0_8 8 8 1).
  - reflexivity.
  - reflexivity.
  - lia.
  - lia.
  - intros x y _ _. unfold rgb_8bit. simpl. lia.
  - simpl. lia.
  - simpl. lia.
  - apply alpha_8bit_checked. vm_compute. reflexivity.
Defined.

(** The pastes are the library's: with the target column at [2 ^ 31 - 1]
    the box of the sprite does not fit 32-bit integers, and the reference
    backend refuses the paste. *)
Example composite_one_paste_too_far :
  _composite_one (H := reference_pil) (convert_RGBA (ImRGB gray_background))
    gray_background red_pose Float64.lit_1_0 lit_0_8 (2 ^ 31 - 1) 8 1
  = Raise OverflowError.
Proof. vm_compute. reflexivity. Qed.

(** ** The order of the checks of the validator *)

Lemma validate_characters_app (os : OS) (has_base_scale : bool) (i : nat)
    (good rest : list (gmap string value)) (c : gmap string value) (e : exn) :
  Forall (character_constraints (value_has in_pose_range) os has_base_scale) good ->
  validate_character os has_base_scale (i + length good) c = Raise e ->
  validate_characters os has_base_scale i (good ++ c :: rest) = Raise e.
Proof.
  intros Hgood. revert i. induction Hgood as [|g good Hg _ IH]; intros i Hc.
  - simpl in *. rewrite Nat.add_0_r in Hc. by rewrite Hc.
  - simpl. rewrite (proj2 (validate_character_ok os has_base_scale i g) Hg). simpl.
    apply IH. by replace (S i + length good)%nat with (i + length (g :: good))%nat
      by (simpl; lia).
Qed.

(** X9.  With an existing background file, validation reports the first
    character entry that fails, with its index, whatever follows it and
    whatever the base scale is; a base scale that is a number outside
    (0, 1] is reported only when every character entry passes. *)
Theorem validator_reports_first_error (os : OS) (config : Config) :
  let has_base_scale := dict_has (cfg_fields config) "base_scale" in
  existing_file os (cfg_fields config !! "background") ->
  (forall good c rest e,
     cfg_characters config = Some (good ++ c :: rest) ->
     validate_characters os has_base_scale 0 good = Ok () ->
     validate_character os has_base_scale (length good) c = Raise e ->
     _validate_config os config = Raise e) /\
  (forall cs bs n,
     cfg_characters config = Some cs ->
     validate_characters os has_base_scale 0 cs = Ok () ->
     cfg_fields config !! "base_scale" = Some bs ->
     value_number bs = Ok n -> in_scale_range n = false ->
     _validate_config os config = Raise (ValueError BaseScaleRange)).
Proof.
  intros hb (p & Ebg & Hfile).
  assert (Hstart : forall cs, cfg_characters config = Some cs ->
            _validate_config os config =
              (_ ← validate_characters os hb 0 cs;
               if hb then
                 bs ← dict_item (cfg_fields config) "base_scale";
                 bs_ok ← between_lt_le 0 bs 1;
                 if negb bs_ok then Raise (ValueError BaseScaleRange) else Ok ()
               else Ok ())).
  { intros cs Ecs.
    assert (Hhas : dict_has (cfg_fields config) "background" = true)
      by (unfold dict_has; rewrite Ebg; apply bool_decide_eq_true_2; eauto).
    assert (Hitem : dict_item (cfg_fields config) "background" = Ok (VStr p))
      by (unfold dict_item; by rewrite Ebg).
    unfold _validate_config. rewrite Hhas, Ecs, Hitem.
    cbn [negb mbind result_bind path_of]. by rewrite Hfile. }
  split.
  - intros good c rest e Ecs Hgood Hc. rewrite (Hstart _ Ecs).
    apply validate_characters_ok in Hgood.
    by rewrite (validate_characters_app os hb 0 good rest c e Hgood Hc).
  - intros cs bs n Ecs Hcs Ebs En Hn. rewrite (Hstart _ Ecs), Hcs.
    cbn [mbind result_bind]. unfold hb, dict_has, dict_item. rewrite Ebs.
    rewrite bool_decide_eq_true_2 by eauto. cbn [mbind result_bind].
    unfold between_lt_le. rewrite En. cbn [mbind result_bind].
    unfold in_scale_range in Hn. by rewrite Hn.
Qed.

Lemma validator_reports_first_error_witness :
  _validate_config all_files second_entry_bad_config = Raise (ValueError (PoseIndexRange 1)) /\
  _validate_config all_files bad_base_scale_config = Raise (ValueError BaseScaleRange).
Proof.
  split.
  - apply (proj1 (validator_reports_first_error all_files second_entry_bad_config
                    ltac:(by exists "bg.png"%string))
             [character_entry (VInt 0)] (character_entry (VInt 5)) [character_entry VNone]).
    + reflexivity.
    + vm_compute. reflexivity.
    + vm_compute. reflexivity.
  - apply (proj2 (validator_reports_first_error all_files bad_base_scale_config
                    ltac:(by exists "bg.png"%string))
             [with_override None] (VInt 3) (NInt 3)).
    + reflexivity.
    + vm_compute. reflexivity.
    + reflexivity.
    + reflexivity.
    + reflexivity.
Defined.

(** X10.  The scale field that is not in use is ignored.  When the config
    has a base scale, the [scale] of a character entry changes neither its
    validation nor its effective scale, whatever the value; when it has
    none, the same holds for [scale_override]. *)
Theorem unused_scale_fields_ignored (os : OS) (i : nat) (c : gmap string value) (v : value) :
  (validate_character os true i (<["scale" := v]> c) = validate_character os true i c /\
   forall bs, is_None bs = false ->
     effective_scale bs (<["scale" := v]> c) = effective_scale bs c) /\
  (validate_character os false i (<["scale_override" := v]> c)
     = validate_character os false i c /\
   effective_scale VNone (<["scale_override" := v]> c) = effective_scale VNone c).
Proof.
  unfold validate_character, effective_scale, dict_has, dict_get, dict_item.
  repeat split.
  - cbv beta iota zeta. by rewrite !lookup_insert_ne by done.
  - intros bs ->. cbv beta iota zeta. by rewrite !lookup_insert_ne by done.
  - cbv beta iota zeta. by rewrite !lookup_insert_ne by done.
  - cbv beta iota zeta. cbn [is_None negb]. by rewrite !lookup_insert_ne by done.
Qed.

Lemma unused_scale_fields_ignored_witness :
  effective_scale (VFloat lit_0_25) (<["scale" := VStr "big"]> (with_override None))
  = effective_scale (VFloat lit_0_25) (with_override None).
Proof.
  apply (proj2 (proj1 (unused_scale_fields_ignored all_files 0 (with_override None)
                         (VStr "big"))) (VFloat lit_0_25)).
  reflexivity.
Defined.

(** ** The files [composite] opens *)

Section CompositeOrder.
Context `{Pil} (os : OS).

Lemma composite_character_log background bg_w bg_h base_scale canvas
    (c : gmap string value) (p : string) (log : list event) :
  c !! "sprite_sheet" = Some (VStr p) ->
  (composite_character os background bg_w bg_h base_scale canvas c log).2
  = log ++ [EvOpen p].
Proof.
  intros Ep. unfold composite_character, dict_item. rewrite Ep.
  unfold mbind at 1, IO_bind, pure. cbn [mbind result_bind path_of].
  unfold mbind at 1, IO_bind, image_open.
  destruct (if is_file os p then _ else _) as [img|e]; [|done].
  by destruct (_ ≫= _).
Qed.

Lemma composite_characters_log background bg_w bg_h base_scale
    (cs : list (gmap string value)) :
  Forall (fun c => is_Some (c !! "sprite_sheet" ≫= fun v => match v with VStr p => Some p | _ => None end)) cs ->
  forall canvas log,
  let run := composite_characters os background bg_w bg_h base_scale canvas cs log in
  exists k, (k <= length cs)%nat /\
    run.2 = log ++ (EvOpen <$> take k (sheet_paths cs)) /\
    (is_Ok run.1 = true -> k = length cs).
Proof.
  induction 1 as [|c cs Hc _ IH]; intros canvas log run.
  - exists 0%nat. subst run. simpl. rewrite app_nil_r. split; [lia|done].
  - destruct (c !! "sprite_sheet") as [[| | | |p]|] eqn:Ep; try by destruct Hc.
    pose proof (composite_character_log background bg_w bg_h base_scale canvas c p log Ep)
      as Hlog.
    assert (Hstep : composite_characters os background bg_w bg_h base_scale canvas (c :: cs) log
                    = match composite_character os background bg_w bg_h base_scale canvas c log with
                      | (Ok a, log') =>
                          composite_characters os background bg_w bg_h base_scale a cs log'
                      | (Raise e, log') => (Raise e, log')
                      end) by reflexivity.
    subst run. rewrite Hstep. clear Hstep.
    destruct (composite_character os background bg_w bg_h base_scale canvas c log)
      as [[canvas'|e] log1]; simpl in Hlog; subst log1.
    + destruct (IH canvas' (log ++ [EvOpen p])) as (k & Hk & Hlog & Hok).
      exists (S k). split; [simpl; lia|]. split.
      * rewrite Hlog. unfold sheet_paths. cbn [omap list_omap]. rewrite Ep.
        cbn [take fmap list_fmap]. by rewrite <- app_assoc.
      * intros Hr. simpl. f_equal. by apply Hok.
    + exists 1%nat. split; [simpl; lia|]. split; [|done].
      unfold sheet_paths. cbn [omap list_omap]. rewrite Ep. done.
Qed.

Lemma validated_sheet_paths (pose_ok : value -> Prop) (has_base_scale : bool)
    (cs : list (gmap string value)) :
  Forall (character_constraints pose_ok os has_base_scale) cs ->
  Forall (fun c => is_Some (c !! "sprite_sheet" ≫=
                             fun v => match v with VStr p => Some p | _ => None end)) cs /\
  length (sheet_paths cs) = length cs.
Proof.
  induction 1 as [|c cs ((p & Ep & _) & _) _ [IH1 IH2]]; [done|]. split.
  - constructor; [|done]. rewrite Ep. simpl. eauto.
  - unfold sheet_paths in *. cbn [omap list_omap]. rewrite Ep. simpl. by rewrite IH2.
Qed.

Lemma composite_validated (config : Config) (log : list event) (bg : string)
    (cs : list (gmap string value)) :
  _validate_config os config = Ok () ->
  cfg_fields config !! "background" = Some (VStr bg) ->
  cfg_characters config = Some cs ->
  composite os config log =
    match image_open os bg log with
    | (Ok bg_img, log1) =>
        let background := convert_RGB bg_img in
        match composite_characters os background (width background) (height background)
                (dict_get (cfg_fields config) "base_scale")
                (convert_RGBA (ImRGB background)) cs log1 with
        | (Ok canvas, log2) => (Ok (convert_RGB (ImRGBA canvas)), log2)
        | (Raise e, log2) => (Raise e, log2)
        end
    | (Raise e, log1) => (Raise e, log1)
    end.
Proof.
  intros Hv Ebg Ecs. unfold composite, dict_item. rewrite Hv, Ebg, Ecs.
  unfold mbind at 1, IO_bind, pure. unfold mbind at 1, IO_bind.
  cbn [mbind result_bind path_of]. unfold mbind at 1, IO_bind.
  destruct (image_open os bg log) as [[bg_img|e] log1]; [|done].
  unfold mbind at 1, IO_bind. unfold mbind at 1, IO_bind.
  by destruct (composite_characters _ _ _ _ _ _ _ _) as [[canvas|e] log2].
Qed.

(** X11.  After validation [composite] opens the background and then the
    sprite sheet of each character, in list order and once per character,
    and nothing else; when it fails, what it has opened is a prefix of
    that list, the background included. *)
Theorem composite_opens_in_order (config : Config) (log : list event) :
  _validate_config os config = Ok () ->
  exists bg cs k,
    cfg_fields config !! "background" = Some (VStr bg) /\
    cfg_characters config = Some cs /\
    length (sheet_paths cs) = length cs /\
    let run := composite os config log in
    (1 <= k <= 1 + length cs)%nat /\
    run.2 = log ++ (EvOpen <$> take k (bg :: sheet_paths cs)) /\
    (is_Ok run.1 = true -> k = (1 + length cs)%nat).
Proof.
  intros Hv. pose proof Hv as Hc. apply validate_config_ok in Hc.
  destruct Hc as ((bg & Ebg & Hbg) & (cs & Ecs & Hcs) & _).
  destruct (validated_sheet_paths _ _ cs Hcs) as [Hsheets Hlen].
  exists bg, cs.
  rewrite (composite_validated config log bg cs Hv Ebg Ecs).
  unfold image_open. rewrite Hbg.
  destruct (image_at os bg) as [bg_img|].
  - set (background := convert_RGB bg_img).
    destruct (composite_characters_log background (width background) (height background)
                (dict_get (cfg_fields config) "base_scale") cs Hsheets
                (convert_RGBA (ImRGB background)) (log ++ [EvOpen bg]))
      as (k & Hk & Hlog & Hok).
    exists (S k). cbv zeta.
    destruct (composite_characters _ _ _ _ _ _ _ _) as [[canvas|e] log2];
      simpl in Hlog, Hok; subst log2; simpl.
    + do 3 (split; [done|]).
      split; [lia|]. split; [by rewrite <- app_assoc|]. intros _. f_equal. by apply Hok.
    + do 3 (split; [done|]).
      split; [lia|]. split; [by rewrite <- app_assoc|]. done.
  - exists 1%nat. simpl. do 3 (split; [done|]). split; [lia|]. done.
Qed.

(** X12.  With no character in a valid config, [composite] opens the
    background only and returns it, converted to RGB, pixel for pixel. *)
Theorem composite_without_characters (config : Config) (log : list event)
    (bg : string) (img : AnyImage) :
  _validate_config os config = Ok () ->
  cfg_fields config !! "background" = Some (VStr bg) ->
  cfg_characters config = Some [] ->
  image_at os bg = Some img ->
  exists out,
    composite os config log = (Ok out, log ++ [EvOpen bg]) /\
    width out = any_width img /\ height out = any_height img /\
    forall x y, px out x y = px (convert_RGB img) x y.
Proof.
  intros Hv Ebg Ecs Eimg. pose proof Hv as Hc. apply validate_config_ok in Hc.
  destruct Hc as ((bg' & Ebg' & Hbg) & _).
  assert (bg' = bg) as -> by congruence.
  rewrite (composite_validated config log bg [] Hv Ebg Ecs).
  unfold image_open. rewrite Hbg, Eimg. cbn [composite_characters mret IO_ret].
  eexists. split; [done|]. unfold any_width, any_height.
  destruct (convert_size img) as [Hw Hh]. by destruct img.
Qed.

(** X13.  [composite_to_file] creates the parent directory of the output
    before anything else.  When that fails, nothing is validated or opened;
    when it succeeds and the config does not validate, the directory has
    been created and nothing else was done. *)
Theorem composite_to_file_makes_directory (config : Config) (output_path : string)
    (log : list event) :
  let parent := path_parent os output_path in
  let run := composite_to_file os config output_path log in
  (exists evs, run.2 = log ++ EvMkdir parent :: evs) /\
  (mkdir_ok os parent = false ->
   run = (Raise (OSError parent), log ++ [EvMkdir parent])) /\
  (mkdir_ok os parent = true ->
   forall e, _validate_config os config = Raise e ->
     run = (Raise e, log ++ [EvMkdir parent])).
Proof.
  intros parent run. subst run. unfold composite_to_file. fold parent.
  unfold mbind at 1, IO_bind.
  destruct (mkdir_ok os parent) eqn:Emk.
  - split; [|split; [done|]].
    + destruct (only_opens_composite os config (log ++ [EvMkdir parent])) as (evs & Hevs & _).
      unfold mbind at 1, IO_bind.
      destruct (composite os config (log ++ [EvMkdir parent])) as [[img|e] log1];
        simpl in Hevs; subst log1.
      * exists (evs ++ [EvSave output_path img]). unfold image_save. simpl.
        by rewrite <- !app_assoc.
      * exists evs. simpl. by rewrite <- app_assoc.
    + intros _ e He. unfold mbind at 1, IO_bind.
      unfold composite. rewrite He. done.
  - split; [by exists []|]. split; [done|]. intros; discriminate.
Qed.

End CompositeOrder.

Lemma composite_opens_in_order_witness :
  exists bg cs k,
    cfg_fields valid_config !! "background" = Some (VStr bg) /\
    cfg_characters valid_config = Some cs /\
    length (sheet_paths cs) = length cs /\
    let run := composite (H := reference_pil) tiny_os valid_config [] in
    (1 <= k <= 1 + length cs)%nat /\
    run.2 = [] ++ (EvOpen <$> take k (bg :: sheet_paths cs)) /\
    (is_Ok run.1 = true -> k = (1 + length cs)%nat).
Proof.
  apply (composite_opens_in_order (H := reference_pil) tiny_os valid_config []).
  vm_compute. reflexivity.
Defined.

Lemma composite_without_characters_witness :
  exists out,
    composite (H := reference_pil) tiny_os empty_scene_config []
      = (Ok out, [] ++ [EvOpen "bg.png"]) /\
    width out = 8 /\ height out = 8 /\
    forall x y, px out x y = (128, 128, 128).
Proof.
  apply (composite_without_characters (H := reference_pil) tiny_os empty_scene_config []
           "bg.png" (ImRGB (mkImage 8 8 (fun _ _ => (128, 128, 128))))).
  - vm_compute. reflexivity.
  - reflexivity.
  - reflexivity.
  - reflexivity.
Defined.

Lemma composite_to_file_makes_directory_witness :
  composite_to_file (H := reference_pil) readonly_os valid_config "out/scene.png" []
    = (Raise (OSError "out"), [] ++ [EvMkdir "out"]) /\
  composite_to_file (H := reference_pil) tiny_os pose_5_config "out/scene.png" []
    = (Raise (ValueError (PoseIndexRange 0)), [] ++ [EvMkdir "out"]).
Proof.
  split.
  - apply (proj1 (proj2 (composite_to_file_makes_directory (H := reference_pil)
                           readonly_os valid_config "out/scene.png" []))).
    reflexivity.
  - apply (proj2 (proj2 (composite_to_file_makes_directory (H := reference_pil)
                           tiny_os pose_5_config "out/scene.png" []))).
    + reflexivity.
    + vm_compute. reflexivity.
Defined.

(** ** A sheet that is too small *)

Section CompositeFailures.
Context `{Pil} (os : OS).

(** X17.  Validation does not look into the image files: when the sprite
    sheet of the first character of a valid config decodes to an image
    narrower than 5 pixels or lower than 1, [composite] opens the
    background and that sheet and raises the [ValueError] of
    [_crop_poses]. *)
Theorem composite_sheet_too_small (config : Config) (log : list event)
    (bg p : string) (bg_img sheet : AnyImage)
    (c : gmap string value) (rest : list (gmap string value)) :
  _validate_config os config = Ok () ->
  cfg_fields config !! "background" = Some (VStr bg) ->
  cfg_characters config = Some (c :: rest) ->
  c !! "sprite_sheet" = Some (VStr p) ->
  image_at os bg = Some bg_img ->
  image_at os p = Some sheet ->
  any_width sheet < NUM_POSES \/ any_height sheet < 1 ->
  composite os config log
  = (Raise (ValueError (SheetTooSmall (any_width sheet) (any_height sheet))),
     log ++ [EvOpen bg; EvOpen p]).
Proof.
  intros Hv Ebg Ecs Ep Ebgimg Esheet Hsmall.
  pose proof Hv as Hc. apply validate_config_ok in Hc.
  destruct Hc as ((bg' & Ebg' & Hbg) & (cs & Ecs' & Hcs) & _).
  assert (bg' = bg) as -> by congruence.
  assert (cs = c :: rest) as -> by congruence.
  apply Forall_cons in Hcs as [((p' & Ep' & Hp) & _) _].
  assert (p' = p) as -> by congruence.
  rewrite (composite_validated os config log bg (c :: rest) Hv Ebg Ecs).
  unfold image_open at 1. rewrite Hbg, Ebgimg. cbv zeta.
  assert (Hcrop : _crop_poses (convert_RGB sheet)
                  = Raise (ValueError (SheetTooSmall (any_width sheet) (any_height sheet)))).
  { unfold _crop_poses, any_width, any_height in *.
    destruct (convert_size sheet) as [-> ->].
    destruct (Z.ltb_spec (width (convert_RGBA sheet)) NUM_POSES);
      destruct (Z.ltb_spec (height (convert_RGBA sheet)) 1); try done; lia. }
  assert (Hchar : forall background bg_w bg_h base_scale canvas log1,
            composite_character os background bg_w bg_h base_scale canvas c log1
            = (Raise (ValueError (SheetTooSmall (any_width sheet) (any_height sheet))),
               log1 ++ [EvOpen p])).
  { intros. unfold composite_character, dict_item. rewrite Ep.
    unfold mbind at 1, IO_bind, pure. cbn [mbind result_bind path_of].
    unfold mbind at 1, IO_bind, image_open. rewrite Hp, Esheet. by rewrite Hcrop. }
  cbn [composite_characters]. unfold mbind at 1, IO_bind. rewrite Hchar.
  by rewrite <- app_assoc.
Qed.

End CompositeFailures.

Lemma composite_sheet_too_small_witness :
  composite (H := reference_pil) narrow_sheet_os valid_config []
  = (Raise (ValueError (SheetTooSmall 4 2)), [] ++ [EvOpen "bg.png"; EvOpen "sprite.png"]).
Proof.
  apply (composite_sheet_too_small (H := reference_pil) narrow_sheet_os valid_config []
           "bg.png" "sprite.png"
           (ImRGB (mkImage 8 8 (fun _ _ => (128, 128, 128))))
           (ImRGB (mkImage 4 2 (fun _ _ => (200, 0, 0))))
           (character_entry (VInt 0)) []).
  - vm_compute. reflexivity.
  - reflexivity.
  - reflexivity.
  - reflexivity.
  - reflexivity.
  - reflexivity.
  - left. vm_compute. reflexivity.
Defined.

(** ** The command line *)

Section CliProperties.
Context `{Pil} (os : OS) (json : Json).


(** X15.  A config that does not validate ends [_cli] after the output
    directory was created and nothing else: with exit status 1 and a
    message for a [ValueError] or a [FileNotFoundError], and with an
    uncaught [TypeError] otherwise. *)
Theorem cli_invalid_config (args : Args) (log : list event) (config : Config) (e : exn) :
  let parent := path_parent os (arg_output args) in
  cli_config os json args = inr config ->
  mkdir_ok os parent = true ->
  _validate_config os config = Raise e ->
  _cli os json args log =
    (match e with
     | TypeError => Uncaught TypeError
     | _ => Exit1 (CompositeFailed e)
     end, log ++ [EvMkdir parent]) /\
  validation_exn e.
Proof.
  intros parent Ecfg Emk He.
  pose proof (validate_config_exn os config e He) as Hexn. split; [|done].
  assert (Hrun : composite_to_file os config (arg_output args) log
                 = (Raise e, log ++ [EvMkdir parent])).
  { unfold composite_to_file. fold parent. unfold mbind at 1, IO_bind. rewrite Emk.
    unfold mbind at 1, IO_bind. unfold composite. rewrite He. done. }
  unfold _cli. rewrite Ecfg, Hrun.
  destruct Hexn as [[v ->]|[[p ->]| ->]]; done.
Qed.

(** X16.  A config built from [--background] and [--characters] has no
    base scale: when it validates, every character entry carries its own
    [scale], a number in (0, 1]. *)
Theorem cli_arguments_mode_needs_scale (args : Args) (config : Config) :
  truthy (arg_config args) = None ->
  cli_config os json args = inr config ->
  _validate_config os config = Ok () ->
  cfg_fields config !! "base_scale" = None /\
  exists bg cs,
    truthy (arg_background args) = Some bg /\
    cfg_fields config !! "background" = Some (VStr bg) /\
    cfg_characters config = Some cs /\
    Forall (fun c => value_has in_scale_range (dict_get c "scale")) cs.
Proof.
  intros Hmode Ecfg Hv. unfold cli_config in Ecfg. rewrite Hmode in Ecfg.
  destruct (truthy (arg_background args)) as [bg|]; [|discriminate].
  destruct (truthy (arg_characters args)) as [text|]; [|discriminate].
  destruct (json_loads json text) as [cs|]; [|discriminate].
  injection Ecfg as <-. apply validate_config_ok in Hv.
  destruct Hv as (_ & (cs' & Ecs & Hcs) & _). simpl in Ecs. injection Ecs as <-.
  split; [done|]. exists bg, cs. split; [done|]. split; [done|]. split; [done|].
  eapply Forall_impl; [exact Hcs|]. intros c (_ & _ & _ & _ & Hscale). exact Hscale.
Qed.

End CliProperties.


(** A save that raises: the config of an empty scene composes, the write
    of the output fails with an exception [_cli] does not catch. *)
Example cli_failed_save :
  let run := _cli (H := reference_pil) full_disk_os
               (mkJson (fun _ => Some empty_scene_config) (fun _ => None)) config_args [] in
  run.1 = Uncaught (OSError "out/scene.png") /\
  describe <$> run.2 = ["mkdir out"; "open bg.png"; "save out/scene.png"]%string.
Proof. vm_compute. split; reflexivity. Qed.

Lemma cli_invalid_config_witness :
  _cli (H := reference_pil) tiny_os sample_json config_args []
    = (Exit1 (CompositeFailed (ValueError (PoseIndexRange 0))), [] ++ [EvMkdir "out"]) /\
  validation_exn (ValueError (PoseIndexRange 0)).
Proof.
  apply (cli_invalid_config (H := reference_pil) tiny_os sample_json config_args []
           pose_5_config (ValueError (PoseIndexRange 0))).
  - reflexivity.
  - reflexivity.
  - vm_compute. reflexivity.
Defined.

Lemma cli_arguments_mode_needs_scale_witness :
  cfg_fields (mkConfig {[ "background"%string := VStr "bg.png" ]}
                (Some [character_entry (VInt 0)])) !! "base_scale" = None /\
  exists bg cs,
    truthy (arg_background inline_args) = Some bg /\
    cfg_fields (mkConfig {[ "background"%string := VStr "bg.png" ]}
                  (Some [character_entry (VInt 0)])) !! "background" = Some (VStr bg) /\
    cfg_characters (mkConfig {[ "background"%string := VStr "bg.png" ]}
                      (Some [character_entry (VInt 0)])) = Some cs /\
    Forall (fun c => value_has in_scale_range (dict_get c "scale")) cs.
Proof.
  apply (cli_arguments_mode_needs_scale tiny_os sample_json inline_args).
  - reflexivity.
  - reflexivity.
  - vm_compute. reflexivity.
Defined.
